(** * Frame Accessibility Audit: the cache and change-detection core

    A shallow embedding of the plugin's [code.ts] (fingerprinting, the
    two-tier local cache, the [analyze] message handler, the handlers of
    the selection and of the clearing of the cache, the background
    colour lookup and the grouping of issues) and of the remote history
    client ([supabase-client.ts] with the SQL functions it calls),
    followed by the properties the specification states about them and
    by further properties of the code.

    Conventions of the embedding
    - a JavaScript string is the list of its UTF-16 code units ([jsstring]);
    - integers the code handles ([Date.now()], array lengths, the 32-bit
      hash) are [Z] or [nat], with the 32-bit wrap-around written out;
    - colour channels are IEEE doubles ([float]); the host's
      [Number::toString] on doubles and the text of its [TypeError]s are
      operations of the runtime ([JsRuntime]);
    - [Map] and the per-node plugin data are finite maps keyed by node id;
    - the handler runs in a state-and-exception monad over the plugin's
      world and records what it does to the outside in a trace;
    - a handler with [await]s is the sequence of its stretches of code
      between them; each stretch reads the globals afresh, and a handler
      that runs during an [await] is composed between two stretches. *)

From Stdlib Require Import ZArith List Lia Bool Ascii String PrimFloat.
From stdpp Require Import gmap strings list.

Set Warnings "-register-all".

Open Scope Z_scope.

(* ================================================================== *)
(** * Part I: definitions                                              *)
(* ================================================================== *)

(** ** JavaScript strings *)

Definition jsstring := list Z.

(** An ASCII literal as a JavaScript string. *)
Definition js (s : string) : jsstring :=
  map (fun a => Z.of_N (N_of_ascii a)) (list_ascii_of_string s).

(** A well-formed string: every element is a 16-bit code unit. *)
Definition codeUnit (c : Z) : Prop := 0 <= c < 65536.
Definition wfString (s : jsstring) : Prop := Forall codeUnit s.

(** [arr.join(sep)] on an array of strings. *)
Fixpoint joinWith (sep : jsstring) (l : list jsstring) : jsstring :=
  match l with
  | [] => []
  | [x] => x
  | x :: rest => x ++ sep ++ joinWith sep rest
  end.

(** The digit of value [d] in radix up to 36: [0-9] then [a-z]. *)
Definition digitChar (d : Z) : Z := if d <? 10 then 48 + d else 87 + d.

Fixpoint digitsRev (fuel : nat) (radix n : Z) : list Z :=
  match fuel with
  | O => []
  | S fuel' =>
      if n <? radix then [digitChar n]
      else digitChar (n mod radix) :: digitsRev fuel' radix (n / radix)
  end.

(** [n.toString(radix)] for a non-negative integer [n]; a number below
    [2^k] has at most [k] digits, which bounds the recursion. *)
Definition integer_toString (radix n : Z) : jsstring :=
  rev (digitsRev (S (Z.to_nat (Z.log2 n))) radix n).

(** ** JSON.stringify on strings (ECMAScript QuoteJSONString) *)

Definition isHighSurrogate (c : Z) : bool := (55296 <=? c) && (c <=? 56319).
Definition isLowSurrogate (c : Z) : bool := (56320 <=? c) && (c <=? 57343).

(** [\uXXXX] with four lower-case hexadecimal digits. *)
Definition unicodeEscape (c : Z) : jsstring :=
  [92; 117; digitChar (c / 4096 mod 16); digitChar (c / 256 mod 16);
   digitChar (c / 16 mod 16); digitChar (c mod 16)].

(** One code unit that is not part of a surrogate pair. *)
Definition escapeUnit (c : Z) : jsstring :=
  if c =? 8 then [92; 98]            (* \b *)
  else if c =? 9 then [92; 116]      (* \t *)
  else if c =? 10 then [92; 110]     (* \n *)
  else if c =? 12 then [92; 102]     (* \f *)
  else if c =? 13 then [92; 114]     (* \r *)
  else if c =? 34 then [92; 34]      (* the double quote *)
  else if c =? 92 then [92; 92]      (* the backslash *)
  else if (c <? 32) || isHighSurrogate c || isLowSurrogate c
       then unicodeEscape c
  else [c].

(** The code points of the string are visited in order: a high surrogate
    followed by a low one is one code point and is copied; any other
    code unit is escaped on its own. *)
Fixpoint quoteBody (s : jsstring) : jsstring :=
  match s with
  | [] => []
  | c :: rest =>
      match rest with
      | d :: rest' =>
          if isHighSurrogate c && isLowSurrogate d
          then c :: d :: quoteBody rest'
          else escapeUnit c ++ quoteBody rest
      | [] => escapeUnit c
      end
  end.

Definition JSON_quote (s : jsstring) : jsstring := 34 :: quoteBody s ++ [34].

(** [JSON.stringify] of an array of strings. *)
Definition JSON_stringArray (l : list jsstring) : jsstring :=
  js "[" ++ joinWith (js ",") (map JSON_quote l) ++ js "]".

(** ** The rolling hash *)

(** ToInt32: the value modulo [2^32], read as a signed 32-bit integer. *)
Definition toInt32 (z : Z) : Z := (z + 2147483648) mod 4294967296 - 2147483648.

(** One iteration of the loop of [simpleHash]:
    [hash = ((hash << 5) - hash) + char; hash = hash & hash]. *)
Definition hashStep (hash char : Z) : Z :=
  let hash := (toInt32 (Z.shiftl (toInt32 hash) 5) - hash) + char in
  Z.land (toInt32 hash) (toInt32 hash).

Definition simpleHash (str : jsstring) : jsstring :=
  let hash := fold_left hashStep str 0 in
  integer_toString 36 (Z.abs hash).

(** ** The host runtime *)

(** What the embedding takes from the JavaScript engine without
    defining it: the decimal rendering of a double
    (ECMAScript [Number::toString]), used by template literals. *)
Class JsRuntime := {
  Number_toString : float -> jsstring;
  (** what ['' + error] gives for the [TypeError] that reading the
      property of that name off [null] throws *)
  TypeError_of_null : jsstring -> jsstring
}.

(** ** The scene graph *)

Record RGB := { r : float; g : float; b : float }.

(** A paint of a [fills] array; only a solid paint carries a colour. *)
Inductive Paint :=
| SOLID (color : RGB)
| GRADIENT_LINEAR
| GRADIENT_RADIAL
| GRADIENT_ANGULAR
| GRADIENT_DIAMOND
| IMAGE
| VIDEO.

(** The [fills] property of a node: missing (['fills' in node] is false),
    the symbol [figma.mixed], or an array of paints. *)
Inductive FillsProp :=
| NoFills
| MixedFills
| Fills (paints : list Paint).

Inductive NodeType :=
| DOCUMENT | PAGE | FRAME | GROUP | TEXT | RECTANGLE | ELLIPSE | VECTOR
| COMPONENT | INSTANCE | OTHER.

(** A node of the document tree.  [characters] is read on text nodes
    only.  A node without a [children] property has [children = []]:
    every loop over children treats the two alike. *)
Inductive SceneNode := mkNode {
  node_id : jsstring;
  node_name : jsstring;
  node_type : NodeType;
  characters : jsstring;
  fills : FillsProp;
  children : list SceneNode
}.

Definition isTEXT (n : SceneNode) : bool :=
  match node_type n with TEXT => true | _ => false end.

(** ** Fingerprint generator ([generateContentHash]) *)

(** [walk] of [collectTextContent], with the array [texts] it pushes to
    passed along. *)
Fixpoint walkTexts (n : SceneNode) (texts : list jsstring) : list jsstring :=
  let texts := if isTEXT n then texts ++ [characters n] else texts in
  fold_left (fun acc child => walkTexts child acc) (children n) texts.

Definition collectTextContent (node : SceneNode) : list jsstring :=
  walkTexts node [].

(** The template literal [`${fill.color.r},${fill.color.g},${fill.color.b}`]. *)
Definition colorString `{JsRuntime} (c : RGB) : jsstring :=
  Number_toString (r c) ++ js "," ++ Number_toString (g c) ++ js ","
    ++ Number_toString (b c).

(** [fills.forEach(fill => if (fill.type === 'SOLID') colors.push(...))] *)
Definition pushSolidColors `{JsRuntime} (paints : list Paint)
    (colors : list jsstring) : list jsstring :=
  fold_left (fun acc fill =>
               match fill with
               | SOLID c => acc ++ [colorString c]
               | _ => acc
               end) paints colors.

(** [walk] of [collectColors]. *)
Fixpoint walkColors `{JsRuntime} (n : SceneNode) (colors : list jsstring)
    : list jsstring :=
  let colors :=
    if isTEXT n then
      match fills n with
      | Fills paints => pushSolidColors paints colors
      | _ => colors                       (* not an array *)
      end
    else colors in
  fold_left (fun acc child => walkColors child acc) (children n) colors.

Definition collectColors `{JsRuntime} (node : SceneNode) : list jsstring :=
  walkColors node [].

(** [JSON.stringify({childCount, texts, colors})]: the keys in insertion
    order, no white space. *)
Definition JSON_stringify_fingerprint (childCount : nat)
    (texts colors : list jsstring) : jsstring :=
  js "{" ++ JSON_quote (js "childCount") ++ js ":"
    ++ integer_toString 10 (Z.of_nat childCount)
    ++ js "," ++ JSON_quote (js "texts") ++ js ":" ++ JSON_stringArray texts
    ++ js "," ++ JSON_quote (js "colors") ++ js ":" ++ JSON_stringArray colors
    ++ js "}".

(** The string that [generateContentHash] hashes. *)
Definition fingerprintJSON `{JsRuntime} (frame : SceneNode) : jsstring :=
  JSON_stringify_fingerprint (length (children frame))
    (collectTextContent frame) (collectColors frame).

Definition generateContentHash `{JsRuntime} (frame : SceneNode) : jsstring :=
  simpleHash (fingerprintJSON frame).

(** [countElements]: the node and all its descendants. *)
Fixpoint countElements (node : SceneNode) : nat :=
  fold_left (fun count child => (count + countElements child)%nat)
    (children node) 1%nat.

(** ** Colour lookups of the contrast checks *)

Definition white : RGB := {| r := 1; g := 1; b := 1 |}.

(** [fills[0].color] when [fills] is a non-empty array whose first paint
    is solid: the test shared by [getTextColor], [getBackgroundColor] and
    [checkNonTextContrast]. *)
Definition firstFillIfSolid (f : FillsProp) : option RGB :=
  match f with
  | Fills (SOLID c :: _) => Some c
  | _ => None
  end.

(** [getBackgroundColor(node)]: the loop over [node.parent],
    [node.parent.parent], ...; [ancestors] is that chain, nearest first.
    The result type is [RGB | null]. *)
Fixpoint getBackgroundColor (ancestors : list SceneNode) : option RGB :=
  match ancestors with
  | [] => Some white
  | parent :: up =>
      match firstFillIfSolid (fills parent) with
      | Some c => Some c
      | None => getBackgroundColor up
      end
  end.

Definition getTextColor (node : SceneNode) : option RGB :=
  firstFillIfSolid (fills node).

(** ** Font weight of a text node (in [checkTextContrast]) *)

(** [s.startsWith(sub)] and [s.includes(sub)]. *)
Definition startsWith (sub s : jsstring) : bool :=
  bool_decide (take (length sub) s = sub).

Definition includes (s sub : jsstring) : bool :=
  existsb (fun i => startsWith sub (drop i s)) (seq 0 (S (length s))).

(** The weight read off [style = fontName.style.toLowerCase()] when
    [textNode.fontWeight] is not a number; [fontWeight] starts at 400. *)
Definition fontWeightFromStyle (style : jsstring) : Z :=
  if includes style (js "black") || includes style (js "heavy") then 900
  else if includes style (js "bold") then 700
  else if includes style (js "semibold") then 600
  else if includes style (js "medium") then 500
  else if includes style (js "light") then 300
  else if includes style (js "thin") then 100
  else 400.

(** [rawFontWeight] is a number or the symbol [figma.mixed] ([None]). *)
Definition resolveFontWeight (rawFontWeight : option Z) (style : jsstring) : Z :=
  match rawFontWeight with
  | Some weight => weight
  | None => fontWeightFromStyle style
  end.

(** ** Issues and cache entries *)

(** What [JSON.parse] returns.  The members of an object are in the
    order of the text; a later member replaces an earlier one of the
    same name. *)
Inductive JsonValue :=
| JsonNull
| JsonBool (b : bool)
| JsonNumber (x : float)
| JsonString (s : jsstring)
| JsonArray (items : list JsonValue)
| JsonObject (members : list (jsstring * JsonValue)).

(** ToBoolean: [null], [false], zero, NaN and the empty string are
    falsy. *)
Definition truthy (v : JsonValue) : bool :=
  match v with
  | JsonNull => false
  | JsonBool b => b
  | JsonNumber x => negb (PrimFloat.eqb x 0 || PrimFloat.is_nan x)
  | JsonString s => negb (bool_decide (s = []))
  | JsonArray _ | JsonObject _ => true
  end.

(** [v[index]] for a value that is not [null]; [None] is [undefined].
    A string has its code units there, an object the member named by
    the decimal numeral, a boolean or a number nothing. *)
Definition elementAt (v : JsonValue) (index : nat) : option JsonValue :=
  match v with
  | JsonArray items => items !! index
  | JsonString s => (fun c => JsonString [c]) <$> s !! index
  | JsonObject members =>
      snd <$> last (filter (fun member : jsstring * JsonValue =>
                              member.1 = integer_toString 10 (Z.of_nat index)) members)
  | _ => None
  end.

Inductive Severity := SevFail | SevWarning.
Inductive WcagLevel := AA | AAA.

(** [suggestedFix] is [{ type, value }] with a colour or a number. *)
Inductive FixValue := FixColor (c : RGB) | FixNumber (v : float).
Record SuggestedFix := { fix_type : jsstring; fix_value : FixValue }.
Record Bounds := {
  bounds_x : float; bounds_y : float;
  bounds_width : float; bounds_height : float
}.

Record AccessibilityIssue := {
  elementId : jsstring;
  elementName : jsstring;
  issueType : jsstring;
  severity : Severity;
  wcagLevel : WcagLevel;
  currentValue : jsstring;
  requiredValue : jsstring;
  suggestion : JsonValue;      (* declared a string; see [enhanceWithAI] *)
  suggestedFix : SuggestedFix;
  bounds : option Bounds
}.

Record CachedAnalysis := {
  timestamp : Z;
  version : jsstring;
  contentHash : jsstring;
  results : list AccessibilityIssue
}.

Definition PLUGIN_VERSION : jsstring := js "1.0.0".
Definition CACHE_DURATION : Z := 7 * 24 * 60 * 60 * 1000.

(** ** Grouping issues by element ([groupIssuesByElement]) *)

(** [{ ...issue, index }] *)
Record IndexedIssue := { issue : AccessibilityIssue; index : nat }.

Record IssueGroup := {
  group_elementName : jsstring;
  group_elementId : jsstring;
  group_issues : list IndexedIssue
}.

(** The key [`${issue.elementName}_${issue.elementId}`]. *)
Definition groupKey (i : AccessibilityIssue) : jsstring :=
  elementName i ++ js "_" ++ elementId i.

(** The object [grouped], used as a map from keys to arrays: its own
    properties in insertion order, which is the order [Object.entries]
    lists keys of this form in.  Properties that [grouped] inherits
    from [Object.prototype] are not part of the model: under a key such
    as [__proto__] or [constructor] the code finds a value it has not
    stored and throws.  The key of an issue whose elementId is a node
    id is no such name ([inheritedKeys], [groupKey_not_inherited]). *)
Definition Grouped := list (jsstring * list IndexedIssue).

(** [grouped[key].push(x)] on an existing property. *)
Fixpoint pushTo (key : jsstring) (x : IndexedIssue) (grouped : Grouped) : Grouped :=
  match grouped with
  | [] => []
  | (k, members) :: rest =>
      if decide (k = key) then (k, members ++ [x]) :: rest
      else (k, members) :: pushTo key x rest
  end.

Definition hasKey (key : jsstring) (grouped : Grouped) : bool :=
  existsb (fun e => bool_decide (e.1 = key)) grouped.

(** The body of the [forEach]: create the array when the key is new,
    then push. *)
Definition addIssue (grouped : Grouped) (x : IndexedIssue) : Grouped :=
  let key := groupKey (issue x) in
  let grouped := if hasKey key grouped then grouped else grouped ++ [(key, [])] in
  pushTo key x grouped.

(** The issues paired with their positions, as [forEach] passes them. *)
Definition withIndex (issues : list AccessibilityIssue) : list IndexedIssue :=
  imap (fun i x => {| issue := x; index := i |}) issues.

(** One entry of [Object.entries(grouped)] mapped to its group;
    [issues[0]] of an empty array is [undefined], whose property access
    throws ([None]). *)
Definition toGroup (entry : jsstring * list IndexedIssue) : option IssueGroup :=
  match entry.2 with
  | first :: _ =>
      Some {| group_elementName := elementName (issue first);
              group_elementId := elementId (issue first);
              group_issues := entry.2 |}
  | [] => None
  end.

Definition groupIssuesByElement (issues : list AccessibilityIssue)
    : option (list IssueGroup) :=
  let grouped := fold_left addIssue (withIndex issues) [] in
  mapM toGroup grouped.

(** ** The plugin's world *)

(** The text in a node's plugin-data slot ['a11y-analysis'], by what
    [JSON.parse] makes of it.  An empty slot (the empty string) is the
    absence of the node's id from the map.  [Serialized c] is the text
    [JSON.stringify(c)], which parses back to [c]. *)
Inductive Payload :=
| Unparsable (text : jsstring)       (* JSON.parse throws on it *)
| FalsyJson                          (* parses to null, false, 0 or the empty string *)
| Serialized (c : CachedAnalysis).

(** Messages to the UI that the [analyze] handler posts. *)
Inductive UiMessage :=
| MsgError (message : jsstring)
| MsgAnalysisProgress (progress : Z) (total : nat)
| MsgAnalysisComplete (issues : list IssueGroup) (totalIssues : nat)
    (fromCache : bool) (cacheAge : option jsstring).

Inductive Notification :=
| NotifyLoadedFromCache (age : jsstring)
| NotifyAnalysisComplete (found : nat)
| NotifyAnalysisFailed
| NotifyAiApplied
| NotifyAiFailed.

(** What a run does to the outside, in order. *)
Inductive Event :=
| PostMessage (m : UiMessage)            (* figma.ui.postMessage *)
| Notify (n : Notification)              (* figma.notify *)
| AnalyzeFrame (frameId : jsstring)      (* the Analysis Driver runs *)
| Fetch (url : jsstring)                 (* a network request *)
| CreateOverlayFrame (frameId : jsstring)
| ClearOverlays.

Record World := mkWorld {
  analysisCache : gmap jsstring CachedAnalysis;     (* tier 1 *)
  pluginData : gmap jsstring Payload;               (* tier 2, by node id *)
  clock : Z;                                        (* what Date.now() returns *)
  selectedFrame : option SceneNode;
  currentIssues : list AccessibilityIssue;
  isPaused : bool;
  analysisProgress : Z;
  totalElements : nat;
  trace : list Event
}.

Definition with_analysisCache (f : gmap jsstring CachedAnalysis -> gmap jsstring CachedAnalysis)
    (w : World) : World :=
  mkWorld (f (analysisCache w)) (pluginData w) (clock w) (selectedFrame w)
    (currentIssues w) (isPaused w) (analysisProgress w) (totalElements w) (trace w).
Definition with_pluginData (f : gmap jsstring Payload -> gmap jsstring Payload)
    (w : World) : World :=
  mkWorld (analysisCache w) (f (pluginData w)) (clock w) (selectedFrame w)
    (currentIssues w) (isPaused w) (analysisProgress w) (totalElements w) (trace w).
Definition with_clock (t : Z) (w : World) : World :=
  mkWorld (analysisCache w) (pluginData w) t (selectedFrame w)
    (currentIssues w) (isPaused w) (analysisProgress w) (totalElements w) (trace w).
Definition with_currentIssues (l : list AccessibilityIssue) (w : World) : World :=
  mkWorld (analysisCache w) (pluginData w) (clock w) (selectedFrame w)
    l (isPaused w) (analysisProgress w) (totalElements w) (trace w).
Definition with_isPaused (p : bool) (w : World) : World :=
  mkWorld (analysisCache w) (pluginData w) (clock w) (selectedFrame w)
    (currentIssues w) p (analysisProgress w) (totalElements w) (trace w).
Definition with_analysisProgress (p : Z) (w : World) : World :=
  mkWorld (analysisCache w) (pluginData w) (clock w) (selectedFrame w)
    (currentIssues w) (isPaused w) p (totalElements w) (trace w).
Definition with_totalElements (n : nat) (w : World) : World :=
  mkWorld (analysisCache w) (pluginData w) (clock w) (selectedFrame w)
    (currentIssues w) (isPaused w) (analysisProgress w) n (trace w).
Definition with_event (e : Event) (w : World) : World :=
  mkWorld (analysisCache w) (pluginData w) (clock w) (selectedFrame w)
    (currentIssues w) (isPaused w) (analysisProgress w) (totalElements w)
    (trace w ++ [e]).

(** ** State and exceptions *)

(** A computation returns normally or throws; the world is threaded
    through either way. *)
Inductive Result (A : Type) :=
| Ok (a : A)
| Throw (error : jsstring).
Arguments Ok {A} a.
Arguments Throw {A} error.

Definition M (A : Type) : Type := World -> Result A * World.

#[global] Instance M_ret : MRet M := fun A a w => (Ok a, w).
#[global] Instance M_bind : MBind M := fun A B f m w =>
  match m w with
  | (Ok a, w') => f a w'
  | (Throw e, w') => (Throw e, w')
  end.

Definition gets {A} (f : World -> A) : M A := fun w => (Ok (f w), w).
Definition modify (f : World -> World) : M unit := fun w => (Ok tt, f w).
Definition throw {A} (e : jsstring) : M A := fun w => (Throw e, w).

(** [try { body } catch (error) { handler }] *)
Definition tryCatch {A} (body : M A) (handler : jsstring -> M A) : M A :=
  fun w =>
    match body w with
    | (Ok a, w') => (Ok a, w')
    | (Throw e, w') => handler e w'
    end.

Definition emit (e : Event) : M unit := modify (with_event e).
Definition postMessage (m : UiMessage) : M unit := emit (PostMessage m).
Definition notify (n : Notification) : M unit := emit (Notify n).
Definition Date_now : M Z := gets clock.
(** Time that passes while the handler is suspended in an [await]. *)
Definition elapse (d : Z) : M unit := modify (fun w => with_clock (clock w + Z.max 0 d) w).
Definition when (c : bool) (m : M unit) : M unit := if c then m else mret tt.

(** ** Local cache store *)

Definition isExpired (now timestamp : Z) : bool :=
  CACHE_DURATION <? now - timestamp.

(** [isCacheValid(frame, cached)], with the value of [Date.now()]. *)
Definition isCacheValid `{JsRuntime} (now : Z) (frame : SceneNode)
    (cached : CachedAnalysis) : bool :=
  if isExpired now (timestamp cached) then false
  else if negb (bool_decide (version cached = PLUGIN_VERSION)) then false
  else
    let currentHash := generateContentHash frame in
    if negb (bool_decide (currentHash = contentHash cached)) then false
    else true.

(** [analysisCache.delete(frame.id); frame.setPluginData(KEY, '')] *)
Definition clearFrameCache (frame : SceneNode) : M unit :=
  modify (with_analysisCache (delete (node_id frame))) ;;
  modify (with_pluginData (delete (node_id frame))).

Definition getCachedAnalysis `{JsRuntime} (frame : SceneNode)
    : M (option CachedAnalysis) :=
  tier1 ← gets (fun w => analysisCache w !! node_id frame);
  let validate (cached : CachedAnalysis) : M (option CachedAnalysis) :=
    now ← Date_now;
    if isCacheValid now frame cached then mret (Some cached)
    else clearFrameCache frame ;; mret None in
  match tier1 with
  | Some cached => validate cached
  | None =>
      slot ← gets (fun w => pluginData w !! node_id frame);
      match slot with
      | None => mret None                           (* no plugin data *)
      | Some (Unparsable _) => mret None            (* catch: return null *)
      | Some FalsyJson => mret None                 (* parsed, but falsy *)
      | Some (Serialized cached) =>
          modify (with_analysisCache (<[node_id frame := cached]>)) ;;
          validate cached
      end
  end.

(** [setCachedAnalysis(frame, results)]; [storageFull] says that
    [frame.setPluginData] throws, which the function catches. *)
Definition setCachedAnalysis `{JsRuntime} (storageFull : bool)
    (frame : SceneNode) (results : list AccessibilityIssue) : M unit :=
  now ← Date_now;
  let cached := {| timestamp := now;
                   version := PLUGIN_VERSION;
                   contentHash := generateContentHash frame;
                   results := results |} in
  modify (with_analysisCache (<[node_id frame := cached]>)) ;;
  if storageFull then mret tt
  else modify (with_pluginData (<[node_id frame := Serialized cached]>)).

(** [getCacheAge(timestamp)], with the value of [Date.now()]. *)
Definition getCacheAge (now timestamp : Z) : jsstring :=
  let ageMs := now - timestamp in
  let ageMinutes := ageMs / 60000 in
  let ageHours := ageMinutes / 60 in
  let ageDays := ageHours / 24 in
  if 0 <? ageDays then integer_toString 10 ageDays ++ js "d ago"
  else if 0 <? ageHours then integer_toString 10 ageHours ++ js "h ago"
  else if 0 <? ageMinutes then integer_toString 10 ageMinutes ++ js "m ago"
  else js "just now".

(** ** The collaborators of the handler *)

(** What the outside does during one run of the handler: the outcome of
    the Analysis Driver ([analyzeFrame], which is handed [msg.checks]),
    of the AI call and of the overlay, the time each [await] takes, and
    whether the document refuses the write of the plugin data. *)
Record Environment := {
  driverFound : list AccessibilityIssue;   (* pushed onto currentIssues *)
  driverThrows : option jsstring;          (* the error it ends with, if any *)
  driverElapsed : Z;
  aiReply : option JsonValue;              (* see [enhanceWithAI] *)
  aiElapsed : Z;
  overlayThrows : option jsstring;
  overlayElapsed : Z;
  storageFull : bool
}.

(** The fields of an ['analyze'] message. *)
Record AnalyzeMsg := {
  forceReanalyze : bool;       (* msg.forceReanalyze || false *)
  showOverlay : bool;
  useAI : bool;
  apiKey : jsstring
}.

Definition DEEPSEEK_URL : jsstring :=
  js "https://api.deepseek.com/v1/chat/completions".

(** [await analyzeFrame(selectedFrame, checks)], for a run of the driver
    that comes to an end: it pushes what it finds onto [currentIssues]
    and returns or throws.  (The driver waits while [isPaused] is set;
    [handleAnalyze] clears the flag before it starts the driver, and a
    run in which another handler sets it and never clears it again has
    no end and is not among the runs described here.) *)
Definition analyzeFrame (env : Environment) (frame : SceneNode) : M unit :=
  emit (AnalyzeFrame (node_id frame)) ;;
  modify (fun w => with_currentIssues (currentIssues w ++ driverFound env) w) ;;
  elapse (driverElapsed env) ;;
  match driverThrows env with
  | Some error => throw error
  | None => mret tt
  end.

(** [issues.forEach((issue, index) => { if (aiSuggestions[index])
    issue.suggestion = aiSuggestions[index]; })] on a reply that is not
    [null]: whatever is truthy at an index is assigned, a string or
    not. *)
Definition applySuggestions (aiSuggestions : JsonValue)
    (issues : list AccessibilityIssue) : list AccessibilityIssue :=
  imap (fun index issue =>
          match elementAt aiSuggestions index with
          | Some v =>
              if truthy v then
                {| elementId := elementId issue;
                   elementName := elementName issue;
                   issueType := issueType issue;
                   severity := severity issue;
                   wcagLevel := wcagLevel issue;
                   currentValue := currentValue issue;
                   requiredValue := requiredValue issue;
                   suggestion := v;
                   suggestedFix := suggestedFix issue;
                   bounds := bounds issue |}
              else issue
          | None => issue
          end) issues.

(** [await enhanceWithAI(currentIssues, apiKey)]: one request; every
    failure is caught inside.  [aiReply] is the value of
    [JSON.parse(data.choices[0].message.content)], and [None] when there
    is none: the request fails or is answered with an error status, or
    the reply cannot be read or parsed.  Indexing [null] throws, which
    happens at the first issue. *)
Definition enhanceWithAI (env : Environment) : M unit :=
  emit (Fetch DEEPSEEK_URL) ;;
  elapse (aiElapsed env) ;;
  match aiReply env with
  | None => notify NotifyAiFailed
  | Some aiSuggestions =>
      issues ← gets currentIssues;
      match aiSuggestions, issues with
      | JsonNull, _ :: _ => notify NotifyAiFailed
      | _, _ =>
          modify (with_currentIssues (applySuggestions aiSuggestions issues)) ;;
          notify NotifyAiApplied
      end
  end.

Definition clearOverlays : M unit := emit ClearOverlays.

(** [await createOverlayFrame(frame, issues)] *)
Definition createOverlayFrame (env : Environment) (frame : SceneNode) : M unit :=
  emit (CreateOverlayFrame (node_id frame)) ;;
  elapse (overlayElapsed env) ;;
  match overlayThrows env with
  | Some error => throw error
  | None => mret tt
  end.

(** [groupIssuesByElement] inside the handler's [try]. *)
Definition grouping (issues : list AccessibilityIssue) : M (list IssueGroup) :=
  match groupIssuesByElement issues with
  | Some groups => mret groups
  | None => throw (js "TypeError")
  end.

(** ** Cache coordinator: the ['analyze'] branch of [figma.ui.onmessage] *)

(** The cache hit: lines 255-271. *)
Definition serveFromCache (env : Environment) (msg : AnalyzeMsg)
    (frame : SceneNode) (cached : CachedAnalysis) : M unit :=
  groupedIssues ← grouping (results cached);
  now ← Date_now;
  postMessage (MsgAnalysisComplete groupedIssues (length (results cached)) true
                 (Some (getCacheAge now (timestamp cached)))) ;;
  when (bool_decide (0 < length (results cached))%nat && showOverlay msg)
    (modify (with_currentIssues (results cached)) ;;
     createOverlayFrame env frame) ;;
  now ← Date_now;
  notify (NotifyLoadedFromCache (getCacheAge now (timestamp cached))).

(** The fresh analysis is three stretches of code with an [await]
    between them.  Lines 276-284: the start, and the run of the driver
    on [frame], which is the value of [selectedFrame] that the handler
    found non-null in the same stretch. *)
Definition startFreshAnalysis (env : Environment) (frame : SceneNode) : M unit :=
  modify (with_currentIssues []) ;;
  clearOverlays ;;
  modify (with_totalElements (countElements frame)) ;;
  total ← gets totalElements;
  postMessage (MsgAnalysisProgress 0 total) ;;
  analyzeFrame env frame.

(** Lines 287-290. *)
Definition enhanceIfAsked (env : Environment) (msg : AnalyzeMsg) : M unit :=
  when (useAI msg && bool_decide (apiKey msg <> [])) (enhanceWithAI env).

(** Lines 293-308, which run when the awaits of the driver and of the AI
    step are over.  [selectedFrame] is read again there, and handed to
    [setCachedAnalysis] and to [createOverlayFrame]; when it is [null],
    [generateContentHash] throws on reading [frame.children]. *)
Definition storeAndReport `{JsRuntime} (env : Environment) (msg : AnalyzeMsg)
    : M unit :=
  selected ← gets selectedFrame;
  issues ← gets currentIssues;
  match selected with
  | None => throw (TypeError_of_null (js "children"))
  | Some frame =>
      setCachedAnalysis (storageFull env) frame issues ;;
      issues ← gets currentIssues;
      groupedIssues ← grouping issues;
      postMessage (MsgAnalysisComplete groupedIssues (length issues) false None) ;;
      when (bool_decide (0 < length issues)%nat && showOverlay msg)
        (createOverlayFrame env frame) ;;
      issues ← gets currentIssues;
      notify (NotifyAnalysisComplete (length issues))
  end.

(** The fresh analysis, lines 275-308, when no other handler runs
    while it awaits. *)
Definition runFreshAnalysis `{JsRuntime} (env : Environment) (msg : AnalyzeMsg)
    (frame : SceneNode) : M unit :=
  startFreshAnalysis env frame ;;
  enhanceIfAsked env msg ;;
  storeAndReport env msg.

(** The [catch] block of the handler. *)
Definition reportFailure (error : jsstring) : M unit :=
  postMessage (MsgError (js "Analysis failed: " ++ error)) ;;
  notify NotifyAnalysisFailed.

(** The handler, from the message to the end of its [try] or [catch],
    when no other handler runs while it awaits. *)
Definition handleAnalyze `{JsRuntime} (env : Environment) (msg : AnalyzeMsg)
    : M unit :=
  tryCatch
    (modify (with_isPaused false) ;;
     modify (with_analysisProgress 0) ;;
     selected ← gets selectedFrame;
     match selected with
     | None => postMessage (MsgError (js "Please select a frame first"))
     | Some frame =>
         if negb (forceReanalyze msg) then
           cached ← getCachedAnalysis frame;
           match cached with
           | Some cached => serveFromCache env msg frame cached
           | None => runFreshAnalysis env msg frame
           end
         else runFreshAnalysis env msg frame
     end)
    reportFailure.

(** ** Remote history client *)

Module Remote.

(** A row of the table [frame_changes]; the columns filled by defaults
    that no query of the client reads back ([id], the two timestamps)
    are left out. *)
Record ChangeRow := {
  frame_id : jsstring;
  previous_hash : jsstring;
  current_hash : jsstring;
  is_resolved : bool
}.

Definition frame_changes := list ChangeRow.

(** The SQL function [detect_frame_change]:
    [v_has_changed := p_previous_hash != p_current_hash;
     IF v_has_changed THEN INSERT INTO frame_changes (frame_id,
     previous_hash, current_hash) VALUES (...); END IF;
     RETURN v_has_changed;]
    The insert leaves [is_resolved] to its default, [false].  The
    function is declared SECURITY DEFINER, so the row policies of the
    table do not stand in the way of the insert. *)
Definition detect_frame_change (p_frame_id p_previous_hash p_current_hash : jsstring)
    (table : frame_changes) : bool * frame_changes :=
  let v_has_changed := negb (bool_decide (p_previous_hash = p_current_hash)) in
  (v_has_changed,
   if v_has_changed then
     table ++ [{| frame_id := p_frame_id;
                  previous_hash := p_previous_hash;
                  current_hash := p_current_hash;
                  is_resolved := false |}]
   else table).

(** The SQL function [resolve_frame_changes]:
    [UPDATE frame_changes SET is_resolved = true
     WHERE frame_id = p_frame_id AND is_resolved = false]. *)
Definition resolve_frame_changes (p_frame_id : jsstring)
    (table : frame_changes) : frame_changes :=
  map (fun row =>
         if bool_decide (frame_id row = p_frame_id) && negb (is_resolved row)
         then {| frame_id := frame_id row;
                 previous_hash := previous_hash row;
                 current_hash := current_hash row;
                 is_resolved := true |}
         else row) table.

(** The answer to one HTTP request: the store ran it ([response.ok]),
    or the request failed with an error text. *)
Inductive Transport :=
| Delivered
| Failed (error : jsstring).

Definition SUPABASE_URL : jsstring :=
  js "https://mqvwxskywrbhnukhtzmy.supabase.co".

(** The URL [`${this.config.url}/rest/v1${path}`] of [request]. *)
Definition requestUrl (path : jsstring) : jsstring :=
  SUPABASE_URL ++ js "/rest/v1" ++ path.

(** [SupabaseClient.request] for a remote procedure call: the
    procedure runs on the store and its result comes back, or the
    request throws and the store is as it was. *)
Definition request {A} (net : Transport) (rpc : frame_changes -> A * frame_changes)
    (table : frame_changes) : Result A * frame_changes :=
  match net with
  | Delivered => let '(a, table') := rpc table in (Ok a, table')
  | Failed error => (Throw (js "Supabase request failed: " ++ error), table)
  end.

Definition detectFrameChange (net : Transport)
    (frameId previousHash currentHash : jsstring)
    : frame_changes -> Result bool * frame_changes :=
  request net (detect_frame_change frameId previousHash currentHash).

Definition resolveFrameChanges (net : Transport) (frameId : jsstring)
    : frame_changes -> Result unit * frame_changes :=
  request net (fun table => (tt, resolve_frame_changes frameId table)).

(** The paths the client requests for a fresh analysis. *)
Definition saveAnalysisUrl : jsstring := requestUrl (js "/frame_analyses").
Definition resolveFrameChangesUrl : jsstring :=
  requestUrl (js "/rpc/resolve_frame_changes").

End Remote.

(** The sub-query of [get_latest_analysis] that yields [has_changes]:
    [EXISTS (SELECT 1 FROM frame_changes fc WHERE fc.frame_id = fa.frame_id
     AND fc.is_resolved = false)]. *)
Definition has_changes (frameId : jsstring) (table : Remote.frame_changes) : bool :=
  existsb (fun fc => bool_decide (Remote.frame_id fc = frameId)
                     && negb (Remote.is_resolved fc)) table.

(** ** The specification's wording, for comparison with the code *)

(** A depth-first traversal, siblings in stored order. *)
Fixpoint preorder (n : SceneNode) : list SceneNode :=
  n :: flat_map preorder (children n).

(** Specification, 4.1 (a): the total number of descendants. *)
Fixpoint descendantCount (n : SceneNode) : nat :=
  fold_right (fun child acc => (S (descendantCount child) + acc)%nat) 0%nat (children n).

(** Specification, 4.1 (b) and (c): what the text nodes contribute. *)
Definition textLeaves (n : SceneNode) : list SceneNode := filter (fun x => isTEXT x = true) (preorder n).

Definition solidFillStrings `{JsRuntime} (n : SceneNode) : list jsstring :=
  match fills n with
  | Fills paints =>
      flat_map (fun fill => match fill with SOLID c => [colorString c] | _ => [] end) paints
  | _ => []
  end.

(** "The first ancestor's first solid fill", read literally: the first
    solid paint met when the fills of the ancestors are gone through,
    nearest ancestor first; white when there is none. *)
Definition firstSolidFill (f : FillsProp) : option RGB :=
  match f with
  | Fills paints =>
      head (flat_map (fun p => match p with SOLID c => [c] | _ => [] end) paints)
  | _ => None
  end.

Definition specBackgroundColor (ancestors : list SceneNode) : RGB :=
  default white (head (omap (fun a => firstSolidFill (fills a)) ancestors)).

(** Replacing the characters of the node reached by a path of child
    positions, everything else as it was. *)
Definition setCharacters (s : jsstring) (n : SceneNode) : SceneNode :=
  mkNode (node_id n) (node_name n) (node_type n) s (fills n) (children n).

Fixpoint mutateText (path : list nat) (s : jsstring) (n : SceneNode) : SceneNode :=
  match path with
  | [] => setCharacters s n
  | i :: path' =>
      mkNode (node_id n) (node_name n) (node_type n) (characters n) (fills n)
        (alter (mutateText path' s) i (children n))
  end.

Fixpoint nodeAt (path : list nat) (n : SceneNode) : option SceneNode :=
  match path with
  | [] => Some n
  | i :: path' =>
      match children n !! i with
      | Some child => nodeAt path' child
      | None => None
      end
  end.

(** ** Selection, clearing and cache information *)

Definition with_selectedFrame (selected : option SceneNode) (w : World) : World :=
  mkWorld (analysisCache w) (pluginData w) (clock w) selected
    (currentIssues w) (isPaused w) (analysisProgress w) (totalElements w) (trace w).

Definition isFRAME (n : SceneNode) : bool :=
  match node_type n with FRAME => true | _ => false end.

(** What these handlers send, which the [analyze] handler does not: the
    messages to the UI by their [type], and two notifications.  A
    handler returns what it sent, in order. *)
Inductive CacheMessage :=
| MsgSelectionError (message : jsstring)
| MsgSelectionValid (frameName : jsstring)
| MsgCacheAvailable (age : jsstring)
| MsgCacheCleared
| MsgCacheInfo (hasCached : bool) (age : option jsstring)
| NotifyCacheCleared                    (* 'Cache cleared for this frame' *)
| NotifyAllCachesCleared.               (* 'All caches cleared' *)

(** [figma.on('selectionchange', ...)], with the value of
    [figma.currentPage.selection]. *)
Definition onSelectionChange `{JsRuntime} (selection : list SceneNode)
    : M (list CacheMessage) :=
  match selection with
  | [] =>
      modify (with_selectedFrame None) ;;
      mret [MsgSelectionError (js "No frame selected")]
  | _ :: _ :: _ =>
      modify (with_selectedFrame None) ;;
      mret [MsgSelectionError
              (js "Multiple frames selected. Please select only one frame.")]
  | [node] =>
      if isFRAME node then
        modify (with_selectedFrame (Some node)) ;;
        cached ← getCachedAnalysis node;
        match cached with
        | Some cached =>
            now ← Date_now;
            mret [MsgSelectionValid (node_name node);
                  MsgCacheAvailable (getCacheAge now (timestamp cached))]
        | None => mret [MsgSelectionValid (node_name node)]
        end
      else
        modify (with_selectedFrame None) ;;
        mret [MsgSelectionError (js "Please select a frame (not a single element)")]
  end.



(** [figma.currentPage.findAll(node => node.type === 'FRAME')]: the
    search goes through the whole subtree under the page, whose children
    are [page]. *)
Definition findAllFrames (page : list SceneNode) : list SceneNode :=
  List.filter isFRAME (flat_map preorder page).

(** [if (frame.getPluginData(KEY)) frame.setPluginData(KEY, '')]: a slot
    that holds a text holds a non-empty one. *)
Definition clearSlot (data : gmap jsstring Payload) (frame : SceneNode)
    : gmap jsstring Payload :=
  match data !! node_id frame with
  | Some _ => delete (node_id frame) data
  | None => data
  end.

(** [clearAllCaches()], with the children of [figma.currentPage]. *)
Definition clearAllCaches (page : list SceneNode) : M (list CacheMessage) :=
  modify (with_analysisCache (fun _ => ∅)) ;;
  modify (with_pluginData (fun data => fold_left clearSlot (findAllFrames page) data)) ;;
  mret [NotifyAllCachesCleared].

(** ** A selection change during the analysis *)

(** Handlers run one at a time, and another one can run only while the
    current one is suspended in an [await].  This is the fresh analysis
    of [frame], inside the [try] of the handler, in the course of which
    the selection changes to [selection] while the driver is awaited:
    the handler of [selectionchange] runs between the stretch that
    starts the driver and the stretches that follow it. *)
Definition freshAnalysisAcrossSelection `{JsRuntime} (env : Environment)
    (msg : AnalyzeMsg) (frame : SceneNode) (selection : list SceneNode) : M unit :=
  tryCatch
    (startFreshAnalysis env frame ;;
     onSelectionChange selection ;;
     enhanceIfAsked env msg ;;
     storeAndReport env msg)
    reportFailure.

(** ** Vocabulary of the properties *)

(** The first paint of the node's [fills] array exists and is solid. *)
Definition firstFillSolid (a : SceneNode) (c : RGB) : Prop :=
  exists rest, fills a = Fills (SOLID c :: rest).

(** The node has no [fills] array, or an empty one, or one whose first
    paint is not solid. *)
Definition firstFillNotSolid (a : SceneNode) : Prop :=
  forall c, ~ firstFillSolid a c.

(** An element id without the character [_], as the ids that Figma
    gives to nodes are ("12:34"). *)
Definition underscoreFree (s : jsstring) : Prop := ~ In 95 s.

(** An id as Figma gives them to nodes ("12:34", "I5:3;2:1"): not
    empty, and without underscore.  [elementId] is always such an id,
    the code sets it from [node.id]. *)
Definition nodeId (s : jsstring) : Prop := s <> [] /\ underscoreFree s.

(** The property names that an object literal inherits from
    [Object.prototype]: under such a key [grouped[key]] is not
    [undefined] before anything was stored. *)
Definition inheritedKeys : list jsstring :=
  [js "constructor"; js "hasOwnProperty"; js "isPrototypeOf";
   js "propertyIsEnumerable"; js "toLocaleString"; js "toString"; js "valueOf";
   js "__proto__"; js "__defineGetter__"; js "__defineSetter__";
   js "__lookupGetter__"; js "__lookupSetter__"].

(** The issues of one element, each with its position in the input, in
    the order of the input. *)
Definition issuesOf (name id : jsstring) (issues : list AccessibilityIssue)
    : list IndexedIssue :=
  filter (fun m => elementName (issue m) = name /\ elementId (issue m) = id)
    (withIndex issues).

(** An event that is neither a run of the Analysis Driver nor a network
    request. *)
Definition localEvent (e : Event) : Prop :=
  match e with
  | AnalyzeFrame _ | Fetch _ => False
  | _ => True
  end.

(** The events that running [m] from [w] adds to the trace. *)
Definition newEvents {A} (m : M A) (w : World) : list Event :=
  drop (length (trace w)) (trace (m w).2).

(** A request that does not go to the remote history store. *)
Definition notToRemoteStore (e : Event) : Prop :=
  forall url, e = Fetch url -> url = DEEPSEEK_URL.

(** A character of a base-36 numeral: a digit or a lower-case letter. *)
Definition base36Char (c : Z) : Prop := 48 <= c <= 57 \/ 97 <= c <= 122.

(** The value of [hash] when the loop of [simpleHash] is done. *)
Definition hashOf (str : jsstring) : Z := fold_left hashStep str 0.

(** Two issues that differ at most in [suggestion]. *)
Definition sameButSuggestion (x y : AccessibilityIssue) : Prop :=
  elementId y = elementId x /\ elementName y = elementName x
  /\ issueType y = issueType x /\ severity y = severity x
  /\ wcagLevel y = wcagLevel x /\ currentValue y = currentValue x
  /\ requiredValue y = requiredValue x /\ suggestedFix y = suggestedFix x
  /\ bounds y = bounds x.

(** An event of the AI step: its request, or a notification. *)
Definition aiStep (e : Event) : Prop :=
  e = Fetch DEEPSEEK_URL \/ exists n, e = Notify n.

(** The entry that [setCachedAnalysis] builds at time [now]. *)
Definition newEntry `{JsRuntime} (now : Z) (frame : SceneNode)
    (results : list AccessibilityIssue) : CachedAnalysis :=
  {| timestamp := now; version := PLUGIN_VERSION;
     contentHash := generateContentHash frame; results := results |}.

(** The plugin starts again: the map in memory is empty, the document
    is as it was. *)
Definition restart (w : World) : World := with_analysisCache (fun _ => ∅) w.

(** A change of the document that the fingerprint does not read: new
    names for all nodes and new fills for all nodes that are not text. *)
Fixpoint restyle (rename : SceneNode -> jsstring) (paint : SceneNode -> FillsProp)
    (n : SceneNode) : SceneNode :=
  mkNode (node_id n) (rename n) (node_type n) (characters n)
    (if isTEXT n then fills n else paint n)
    (map (restyle rename paint) (children n)).

(** ** Definitions used by the proofs *)

(** What a node itself pushes in the two walks, before its children. *)
Definition ownText (n : SceneNode) : list jsstring :=
  if isTEXT n then [characters n] else [].

Definition ownColors `{JsRuntime} (n : SceneNode) : list jsstring :=
  if isTEXT n then solidFillStrings n else [].

(** The value of a hexadecimal digit, and of the character after a
    backslash. *)
Definition hexValue (d : Z) : Z := if d <? 58 then d - 48 else d - 87.

Definition unescapeChar (x : Z) : Z :=
  if x =? 98 then 8 else if x =? 116 then 9 else if x =? 110 then 10
  else if x =? 102 then 12 else if x =? 114 then 13 else x.

(** The number that the digits of a numeral stand for, the least
    significant digit first. *)
Fixpoint digitsValue (radix : Z) (digits : list Z) : Z :=
  match digits with
  | [] => 0
  | c :: rest => hexValue c + radix * digitsValue radix rest
  end.

(** Reading a quoted body back. *)
Fixpoint unquoteBody (s : jsstring) : jsstring :=
  match s with
  | [] => []
  | c :: rest =>
      if c =? 92 then
        match rest with
        | [] => []
        | x :: rest2 =>
            if x =? 117 then
              match rest2 with
              | h1 :: h2 :: h3 :: h4 :: rest3 =>
                  (hexValue h1 * 4096 + hexValue h2 * 256
                   + hexValue h3 * 16 + hexValue h4) :: unquoteBody rest3
              | _ => []
              end
            else unescapeChar x :: unquoteBody rest2
        end
      else c :: unquoteBody rest
  end.

(** What [join] puts before and after one element of the array. *)
Definition joinBefore (sep : jsstring) (before : list jsstring) : jsstring :=
  flat_map (fun x => x ++ sep) before.

Definition joinAfter (sep : jsstring) (after : list jsstring) : jsstring :=
  match after with
  | [] => []
  | _ => sep ++ joinWith sep after
  end.

(** The keys of [grouped], and all the issues in its arrays. *)
Definition keysOf (grouped : Grouped) : list jsstring := map fst grouped.

Definition membersOf (grouped : Grouped) : list IndexedIssue := concat (map snd grouped).

(** The issues with a given key, in their order. *)
Definition underKey (key : jsstring) (processed : list IndexedIssue)
    : list IndexedIssue :=
  filter (fun m => groupKey (issue m) = key) processed.

(** What holds of [grouped] all along the loop, [processed] being the
    issues gone through so far: keys are distinct, no array is empty,
    every issue sits under its own key, the arrays together hold the
    processed issues, and the array of a key holds all the processed
    issues with that key, in their order. *)
Record GroupedInv (grouped : Grouped) (processed : list IndexedIssue) : Prop := {
  inv_keys : NoDup (keysOf grouped);
  inv_members :
    Forall (fun e => e.2 <> [] /\ Forall (fun m => groupKey (issue m) = e.1) e.2) grouped;
  inv_all : membersOf grouped ≡ₚ processed;
  inv_order : Forall (fun e => e.2 = underKey e.1 processed) grouped
}.

(** The start of the handler: [isPaused = false; analysisProgress = 0]. *)
Definition resetProgress (w : World) : World :=
  with_analysisProgress 0 (with_isPaused false w).

(** The [catch] block applied to the outcome of the [try] block. *)
Definition catchFailure (outcome : Result unit * World) : Result unit * World :=
  match outcome with
  | (Ok a, w1) => (Ok a, w1)
  | (Throw e, w1) =>
      (Ok tt, with_event (Notify NotifyAnalysisFailed)
                (with_event (PostMessage (MsgError (js "Analysis failed: " ++ e))) w1))
  end.

(** Every event a computation adds to the trace satisfies [P]. *)
Definition Emits {A} (P : Event -> Prop) (m : M A) : Prop :=
  forall w, exists new, trace (m w).2 = trace w ++ new /\ Forall P new.

(** ** Worked data *)

(** A stand-in for the engine's [Number::toString] in the worked
    examples below: exact on the channel values 0 and 1, the only ones
    these examples contain. *)
Definition sampleNumberToString (x : float) : jsstring :=
  if PrimFloat.eqb x 1 then js "1" else js "0".

Definition sampleRuntime : JsRuntime :=
  {| Number_toString := sampleNumberToString;
     TypeError_of_null := fun property =>
       js "TypeError: cannot read property '" ++ property ++ js "' of null" |}.

Definition red : RGB := {| r := 1; g := 0; b := 0 |}.
Definition black : RGB := {| r := 0; g := 0; b := 0 |}.

Definition textNode (id s : string) : SceneNode :=
  mkNode (js id) (js "Title") TEXT (js s) (Fills [SOLID black]) [].

Definition rectNode (id : string) : SceneNode :=
  mkNode (js id) (js "Rectangle") RECTANGLE [] (Fills [SOLID red]) [].

(** A frame with one text node reading "Aa". *)
Definition frameAa : SceneNode :=
  mkNode (js "1:1") (js "Card") FRAME [] (Fills [SOLID white]) [textNode "1:2" "Aa"].

(** Two frames with two descendants each and no text: a group holding
    a rectangle, and two rectangles side by side. *)
Definition frameNested : SceneNode :=
  mkNode (js "2:1") (js "Nested") FRAME [] (Fills [SOLID white])
    [mkNode (js "2:2") (js "Group") GROUP [] NoFills [rectNode "2:3"]].

Definition frameFlat : SceneNode :=
  mkNode (js "2:1") (js "Flat") FRAME [] (Fills [SOLID white])
    [rectNode "2:2"; rectNode "2:3"].

(** A parent painted with a gradient under a solid red. *)
Definition gradientParent : SceneNode :=
  mkNode (js "3:1") (js "Hero") FRAME [] (Fills [GRADIENT_LINEAR; SOLID red]) [].

Definition solidParent : SceneNode :=
  mkNode (js "3:0") (js "Page frame") FRAME [] (Fills [SOLID black]) [].

Definition sampleIssue (name id : string) : AccessibilityIssue :=
  {| elementId := js id;
     elementName := js name;
     issueType := js "Text Spacing";
     severity := SevFail;
     wcagLevel := AA;
     currentValue := js "0.0px";
     requiredValue := js "1.9px (0.12em)";
     suggestion := JsonString (js "Increase letter spacing to 1.9px");
     suggestedFix := {| fix_type := js "letterSpacing"; fix_value := FixNumber 2 |};
     bounds := None |}.

(** Two issues on different elements whose keys coincide. *)
Definition collidingIssues : list AccessibilityIssue :=
  [sampleIssue "a_b" "c"; sampleIssue "a" "b_c"].

Definition figmaIssues : list AccessibilityIssue :=
  [sampleIssue "Title" "1:2"; sampleIssue "Body_text" "1:3"; sampleIssue "Title" "1:2"].

Definition quietEnvironment : Environment :=
  {| driverFound := []; driverThrows := None; driverElapsed := 0;
     aiReply := None; aiElapsed := 0;
     overlayThrows := None; overlayElapsed := 0;
     storageFull := false |}.

Definition failingEnvironment : Environment :=
  {| driverFound := []; driverThrows := Some (js "TypeError"); driverElapsed := 250;
     aiReply := None; aiElapsed := 0;
     overlayThrows := None; overlayElapsed := 0;
     storageFull := false |}.

Definition plainRequest (force : bool) : AnalyzeMsg :=
  {| forceReanalyze := force; showOverlay := false; useAI := false; apiKey := [] |}.

(** The entry a fresh analysis of [frameAa] at time 1000 stores. *)
Definition entryAa : CachedAnalysis :=
  {| timestamp := 1000;
     version := PLUGIN_VERSION;
     contentHash := @generateContentHash sampleRuntime frameAa;
     results := [sampleIssue "Title" "1:2"] |}.

(** [frameAa] selected, its entry in both tiers. *)
Definition cachedWorld : World :=
  mkWorld {[ js "1:1" := entryAa ]} {[ js "1:1" := Serialized entryAa ]}
    5000 (Some frameAa) [] false 0 0%nat [].

(** [frameAa] selected, nothing in memory, a truncated text in its slot. *)
Definition corruptWorld : World :=
  mkWorld ∅ {[ js "1:1" := Unparsable (js "{") ]}
    5000 (Some frameAa) [] false 0 0%nat [].

(** An environment in which the driver finds one issue and the drawing
    of the overlay fails, and a request that asks for the overlay. *)
Definition overlayEnvironment : Environment :=
  {| driverFound := [sampleIssue "Title" "1:2"]; driverThrows := None;
     driverElapsed := 250;
     aiReply := None; aiElapsed := 0;
     overlayThrows := Some (js "no font"); overlayElapsed := 10;
     storageFull := false |}.

Definition overlayRequest (force : bool) : AnalyzeMsg :=
  {| forceReanalyze := force; showOverlay := true; useAI := false; apiKey := [] |}.

(** [cachedWorld] eight days after its entry was stored. *)
Definition staleWorld : World := with_clock (1000 + 8 * 86400000) cachedWorld.

(* ================================================================== *)
(** * Part II: properties                                              *)
(* ================================================================== *)

(** ** Local cache store: validity *)

Lemma isExpired_false now timestamp :
  isExpired now timestamp = false <-> now - timestamp <= CACHE_DURATION.
Proof. unfold isExpired. rewrite Z.ltb_ge. reflexivity. Qed.

(** C1. [isCacheValid(frame, cached)] is true exactly when the entry's
    age is at most seven days (in milliseconds), its version is the
    plugin's, and its hash is the hash of the frame as it is now. *)
Theorem isCacheValid_iff `{JsRuntime} (now : Z) (frame : SceneNode)
    (cached : CachedAnalysis) :
  isCacheValid now frame cached = true <->
    now - timestamp cached <= 7 * 24 * 60 * 60 * 1000
    /\ version cached = PLUGIN_VERSION
    /\ contentHash cached = generateContentHash frame.
Proof.
  unfold isCacheValid.
  destruct (isExpired now (timestamp cached)) eqn:Hexp.
  - split; [discriminate |]. intros (Hage & _).
    apply isExpired_false in Hage. congruence.
  - apply isExpired_false in Hexp. unfold CACHE_DURATION in Hexp.
    repeat case_bool_decide; simpl; split; intros Hyp.
    all: first [ discriminate | reflexivity
               | split; [assumption | split; congruence]
               | destruct Hyp as (_ & Hv & Hh); congruence ].
Qed.

(** ** Remote history client: change detection *)

Lemma detect_frame_change_equal frameId hash table :
  Remote.detect_frame_change frameId hash hash table = (false, table).
Proof. unfold Remote.detect_frame_change. rewrite bool_decide_eq_true_2; done. Qed.

Lemma detect_frame_change_differ frameId previousHash currentHash table :
  previousHash <> currentHash ->
  Remote.detect_frame_change frameId previousHash currentHash table =
    (true, table ++ [Remote.Build_ChangeRow frameId previousHash currentHash false]).
Proof.
  intros Hne. unfold Remote.detect_frame_change.
  rewrite bool_decide_eq_false_2; done.
Qed.

(** C7. When the request reaches the store, [detectFrameChange]
    answers [true] and the table of changes gains exactly one row, for
    this frame and these two hashes and not resolved, if the two hashes
    are different strings; it answers [false] and the table is as it
    was if they are the same string. *)
Theorem detectFrameChange_compares_and_records
    (frameId previousHash currentHash : jsstring) (table : Remote.frame_changes) :
  (previousHash <> currentHash ->
     Remote.detectFrameChange Remote.Delivered frameId previousHash currentHash table
     = (Ok true,
        table ++ [{| Remote.frame_id := frameId;
                     Remote.previous_hash := previousHash;
                     Remote.current_hash := currentHash;
                     Remote.is_resolved := false |}]))
  /\ (previousHash = currentHash ->
        Remote.detectFrameChange Remote.Delivered frameId previousHash currentHash table
        = (Ok false, table)).
Proof.
  unfold Remote.detectFrameChange, Remote.request. split.
  - intros Hne. rewrite detect_frame_change_differ; done.
  - intros ->. rewrite detect_frame_change_equal. done.
Qed.

(** A request that fails throws and records nothing. *)
Lemma detectFrameChange_unreachable error frameId previousHash currentHash table :
  Remote.detectFrameChange (Remote.Failed error) frameId previousHash currentHash table
  = (Throw (js "Supabase request failed: " ++ error), table).
Proof. reflexivity. Qed.

(** Resolving marks the open rows of the frame and is idempotent. *)
Lemma resolve_frame_changes_idempotent frameId table :
  Remote.resolve_frame_changes frameId (Remote.resolve_frame_changes frameId table)
  = Remote.resolve_frame_changes frameId table.
Proof.
  unfold Remote.resolve_frame_changes. rewrite map_map. apply map_ext.
  intros [fid prev cur resolved]. simpl.
  destruct (bool_decide (fid = frameId)) eqn:E, resolved; simpl; rewrite ?E; reflexivity.
Qed.

Example detectFrameChange_sample :
  Remote.detectFrameChange Remote.Delivered (js "1:1") (js "1mo") (js "22ci") []
  = (Ok true, [Remote.Build_ChangeRow (js "1:1") (js "1mo") (js "22ci") false])
  /\ Remote.detectFrameChange Remote.Delivered (js "1:1") (js "1mo") (js "1mo") []
     = (Ok false, []).
Proof. split; reflexivity. Qed.

(** ** Background colour *)

Lemma firstFillIfSolid_Some a c :
  firstFillIfSolid (fills a) = Some c <-> firstFillSolid a c.
Proof.
  unfold firstFillSolid, firstFillIfSolid. split.
  - destruct (fills a) as [| |[|[] ?]]; try discriminate.
    intros [= ->]. eauto.
  - intros [rest ->]. reflexivity.
Qed.

Lemma firstFillIfSolid_None a :
  firstFillIfSolid (fills a) = None <-> firstFillNotSolid a.
Proof.
  unfold firstFillNotSolid. split.
  - intros Hnone c Hc. apply firstFillIfSolid_Some in Hc. congruence.
  - intros Hnot. destruct (firstFillIfSolid (fills a)) as [c|] eqn:E; [|done].
    apply firstFillIfSolid_Some in E. destruct (Hnot c E).
Qed.

Lemma getBackgroundColor_skips pre up :
  Forall firstFillNotSolid pre ->
  getBackgroundColor (pre ++ up) = getBackgroundColor up.
Proof.
  induction 1 as [|a pre Ha _ IH]; [reflexivity|].
  simpl. apply firstFillIfSolid_None in Ha. rewrite Ha. exact IH.
Qed.

(** A node none of whose paints is solid has no solid first paint. *)
Lemma no_solid_paint_not_first a :
  firstSolidFill (fills a) = None -> firstFillNotSolid a.
Proof.
  intros Hnone c [rest Hf]. rewrite Hf in Hnone. discriminate.
Qed.

(** C9, as the code has it.  The lookup never comes back empty.  It
    returns the colour of paint 0 of the nearest ancestor whose paint 0
    is solid; paints after the first are not looked at.  When no
    ancestor has a solid paint 0 (in particular when no ancestor has a
    solid paint at all) it returns white. *)
Theorem getBackgroundColor_nearest_solid_first_fill (ancestors : list SceneNode) :
  (exists c, getBackgroundColor ancestors = Some c)
  /\ (forall pre a post c,
        ancestors = pre ++ a :: post ->
        Forall firstFillNotSolid pre ->
        firstFillSolid a c ->
        getBackgroundColor ancestors = Some c)
  /\ (Forall firstFillNotSolid ancestors ->
        getBackgroundColor ancestors = Some {| r := 1; g := 1; b := 1 |})
  /\ (Forall (fun a => firstSolidFill (fills a) = None) ancestors ->
        getBackgroundColor ancestors = Some {| r := 1; g := 1; b := 1 |}).
Proof.
  assert (Hwhite : Forall firstFillNotSolid ancestors ->
                   getBackgroundColor ancestors = Some white).
  { intros Hall. rewrite <- (app_nil_r ancestors).
    rewrite getBackgroundColor_skips by assumption. reflexivity. }
  split; [|split; [|split]].
  - induction ancestors as [|a up IH]; simpl; [eauto|].
    destruct (firstFillIfSolid (fills a)); [eauto|].
    apply IH. intros Hall. rewrite <- (app_nil_r up).
    rewrite getBackgroundColor_skips by assumption. reflexivity.
  - intros pre a post c -> Hpre Ha.
    rewrite getBackgroundColor_skips by assumption. simpl.
    apply firstFillIfSolid_Some in Ha. rewrite Ha. reflexivity.
  - exact Hwhite.
  - intros Hall. apply Hwhite.
    eapply Forall_impl; [exact Hall|]. intros a. apply no_solid_paint_not_first.
Qed.

Example getBackgroundColor_sample :
  getBackgroundColor [gradientParent; solidParent] = Some black
  /\ getBackgroundColor [] = Some white.
Proof. split; reflexivity. Qed.

(** C9, as the claim words it: on a parent painted with a gradient under
    a solid red, the first solid paint of the ancestors is red, and the
    lookup returns white. *)
Lemma getBackgroundColor_ignores_later_solid_fill :
  specBackgroundColor [gradientParent] = red
  /\ getBackgroundColor [gradientParent] = Some white
  /\ getBackgroundColor [gradientParent] <> Some (specBackgroundColor [gradientParent]).
Proof.
  split; [reflexivity|]. split; [reflexivity|].
  intros Heq.
  apply (f_equal (fun o => match o with
                           | Some c => PrimFloat.eqb (g c) 1
                           | None => false
                           end)) in Heq.
  vm_compute in Heq. discriminate.
Qed.

(** ** Fingerprint generator: what the walks collect *)

(** Induction on a node with the property known of all its children. *)
Lemma SceneNode_children_ind (P : SceneNode -> Prop) :
  (forall n, Forall P (children n) -> P n) -> forall n, P n.
Proof.
  intros step. fix IH 1. intros [i nm ty ch fl kids]. apply step. simpl.
  induction kids as [|k kids IHkids]; constructor; [apply IH | exact IHkids].
Qed.

(** A loop that only appends, child by child. *)
Lemma fold_left_appends {A B} (f : B -> list A -> list A) (g : B -> list A)
    (kids : list B) :
  Forall (fun k => forall acc, f k acc = acc ++ g k) kids ->
  forall acc, fold_left (fun acc k => f k acc) kids acc = acc ++ flat_map g kids.
Proof.
  induction 1 as [|k kids Hk _ IH]; intros acc; simpl.
  - symmetry. apply app_nil_r.
  - rewrite Hk, IH, <- app_assoc. reflexivity.
Qed.

Lemma walkTexts_appends n :
  forall texts, walkTexts n texts = texts ++ collectTextContent n.
Proof.
  induction n as [n IH] using SceneNode_children_ind.
  assert (Hstep : forall texts,
             walkTexts n texts
             = texts ++ ownText n ++ flat_map collectTextContent (children n)).
  { intros texts. destruct n as [i nm ty ch fl kids]. simpl in *.
    rewrite (fold_left_appends walkTexts collectTextContent kids IH).
    unfold ownText. simpl. destruct (isTEXT _); simpl.
    - rewrite <- app_assoc. reflexivity.
    - reflexivity. }
  intros texts. unfold collectTextContent. rewrite (Hstep []), Hstep. reflexivity.
Qed.

(** The texts of a node are its own, if it is a text node, followed by
    those of its children in order. *)
Lemma collectTextContent_unfold n :
  collectTextContent n = ownText n ++ flat_map collectTextContent (children n).
Proof.
  unfold collectTextContent at 1. destruct n as [i nm ty ch fl kids]. simpl.
  rewrite (fold_left_appends walkTexts collectTextContent kids).
  - unfold ownText. simpl. destruct (isTEXT _); reflexivity.
  - apply Forall_forall. intros k _. apply walkTexts_appends.
Qed.

Lemma pushSolidColors_appends `{JsRuntime} paints colors :
  pushSolidColors paints colors
  = colors ++ flat_map (fun fill => match fill with
                                    | SOLID c => [colorString c]
                                    | _ => []
                                    end) paints.
Proof.
  unfold pushSolidColors. revert colors.
  induction paints as [|p paints IH]; intros colors; simpl.
  - symmetry. apply app_nil_r.
  - rewrite IH. destruct p; simpl; rewrite <- ?app_assoc; try reflexivity.
    all: rewrite ?app_nil_r; reflexivity.
Qed.

Lemma ownColors_push `{JsRuntime} n colors :
  (if isTEXT n then
     match fills n with
     | Fills paints => pushSolidColors paints colors
     | _ => colors
     end
   else colors) = colors ++ ownColors n.
Proof.
  unfold ownColors, solidFillStrings. destruct (isTEXT n).
  - destruct (fills n); rewrite ?pushSolidColors_appends, ?app_nil_r; reflexivity.
  - rewrite app_nil_r. reflexivity.
Qed.

Lemma walkColors_appends `{JsRuntime} n :
  forall colors, walkColors n colors = colors ++ collectColors n.
Proof.
  induction n as [n IH] using SceneNode_children_ind.
  assert (Hstep : forall colors,
             walkColors n colors
             = colors ++ ownColors n ++ flat_map collectColors (children n)).
  { intros colors. destruct n as [i nm ty ch fl kids].
    change (walkColors (mkNode i nm ty ch fl kids) colors)
      with (fold_left (fun acc child => walkColors child acc) kids
              (if isTEXT (mkNode i nm ty ch fl kids) then
                 match fills (mkNode i nm ty ch fl kids) with
                 | Fills paints => pushSolidColors paints colors
                 | _ => colors
                 end
               else colors)).
    rewrite ownColors_push.
    rewrite (fold_left_appends walkColors collectColors kids IH).
    rewrite <- app_assoc. reflexivity. }
  intros colors. unfold collectColors. rewrite (Hstep []), Hstep. reflexivity.
Qed.

Lemma collectColors_unfold `{JsRuntime} n :
  collectColors n = ownColors n ++ flat_map collectColors (children n).
Proof.
  unfold collectColors at 1. destruct n as [i nm ty ch fl kids].
  change (walkColors (mkNode i nm ty ch fl kids) [])
    with (fold_left (fun acc child => walkColors child acc) kids
            (if isTEXT (mkNode i nm ty ch fl kids) then
               match fills (mkNode i nm ty ch fl kids) with
               | Fills paints => pushSolidColors paints []
               | _ => []
               end
             else [])).
  rewrite ownColors_push. simpl.
  rewrite (fold_left_appends walkColors collectColors kids).
  - reflexivity.
  - apply Forall_forall. intros k _. apply walkColors_appends.
Qed.

(** In terms of the depth-first traversal: the characters of the text
    nodes, and the solid paints of the text nodes, in traversal order. *)
Lemma textLeaves_unfold n :
  textLeaves n = (if isTEXT n then [n] else []) ++ flat_map textLeaves (children n).
Proof.
  unfold textLeaves. destruct n as [i nm ty ch fl kids]. simpl preorder.
  rewrite filter_cons. simpl children.
  assert (Hkids : filter (fun x => isTEXT x = true) (flat_map preorder kids)
                  = flat_map (fun k => filter (fun x => isTEXT x = true) (preorder k)) kids).
  { induction kids as [|k kids IH]; simpl; [reflexivity|].
    rewrite filter_app, IH. reflexivity. }
  rewrite Hkids. destruct (decide _) as [E|E]; destruct (isTEXT _); try done.
Qed.

Lemma collectTextContent_preorder n :
  collectTextContent n = map characters (textLeaves n).
Proof.
  induction n as [n IH] using SceneNode_children_ind.
  rewrite collectTextContent_unfold, textLeaves_unfold, map_app.
  f_equal.
  - unfold ownText. destruct (isTEXT n); reflexivity.
  - induction IH as [|k kids Hk _ IHkids]; simpl; [reflexivity|].
    rewrite map_app, Hk, IHkids. reflexivity.
Qed.

Lemma collectColors_preorder `{JsRuntime} n :
  collectColors n = flat_map solidFillStrings (textLeaves n).
Proof.
  induction n as [n IH] using SceneNode_children_ind.
  rewrite collectColors_unfold, textLeaves_unfold, flat_map_app.
  f_equal.
  - unfold ownColors. destruct (isTEXT n); simpl; rewrite ?app_nil_r; reflexivity.
  - induction IH as [|k kids Hk _ IHkids]; simpl; [reflexivity|].
    rewrite flat_map_app, Hk, IHkids. reflexivity.
Qed.

(** C4, as the code has it.  The fingerprint is the hash of the JSON
    text of three things: the number of direct children of the frame,
    the characters of the text nodes in depth-first order, and the solid
    paints of the text nodes, each as "r,g,b", in the same order.  Two
    frames that agree on the three have the same fingerprint, whatever
    else differs. *)
Theorem generateContentHash_of_children_texts_colors `{JsRuntime} (frame : SceneNode) :
  generateContentHash frame
  = simpleHash (JSON_stringify_fingerprint
                  (length (children frame))
                  (map characters (textLeaves frame))
                  (flat_map solidFillStrings (textLeaves frame)))
  /\ forall other,
       length (children other) = length (children frame) ->
       map characters (textLeaves other) = map characters (textLeaves frame) ->
       flat_map solidFillStrings (textLeaves other)
       = flat_map solidFillStrings (textLeaves frame) ->
       generateContentHash other = generateContentHash frame.
Proof.
  assert (Hform : forall f,
             generateContentHash f
             = simpleHash (JSON_stringify_fingerprint
                             (length (children f))
                             (map characters (textLeaves f))
                             (flat_map solidFillStrings (textLeaves f)))).
  { intros f. unfold generateContentHash, fingerprintJSON.
    rewrite collectTextContent_preorder, collectColors_preorder. reflexivity. }
  split; [apply Hform|].
  intros other Hn Ht Hc. rewrite !Hform, Hn, Ht, Hc. reflexivity.
Qed.

Example generateContentHash_sample :
  @fingerprintJSON sampleRuntime frameAa
  = [123; 34] ++ js "childCount" ++ [34] ++ js ":1," ++ [34] ++ js "texts" ++ [34]
      ++ js ":[" ++ [34] ++ js "Aa" ++ [34] ++ js "]," ++ [34] ++ js "colors" ++ [34]
      ++ js ":[" ++ [34] ++ js "0,0,0" ++ [34] ++ js "]}"
  /\ @generateContentHash sampleRuntime frameAa = js "jpiaoq".
Proof. split; vm_compute; reflexivity. Qed.

(** C4, as the claim words it, with the total number of descendants
    for (a): the two frames below have two descendants each, the same
    texts and the same colours, and different fingerprints, because one
    has one child and the other two. *)
Lemma generateContentHash_not_by_descendant_count :
  descendantCount frameNested = descendantCount frameFlat
  /\ map characters (textLeaves frameNested) = map characters (textLeaves frameFlat)
  /\ flat_map (@solidFillStrings sampleRuntime) (textLeaves frameNested)
     = flat_map (@solidFillStrings sampleRuntime) (textLeaves frameFlat)
  /\ @generateContentHash sampleRuntime frameNested
     <> @generateContentHash sampleRuntime frameFlat.
Proof.
  repeat split; try reflexivity.
  vm_compute. discriminate.
Qed.

(** ** JSON quoting loses nothing *)

Lemma hexValue_digitChar d : 0 <= d < 16 -> hexValue (digitChar d) = d.
Proof.
  intros Hd. unfold hexValue, digitChar.
  destruct (Z.ltb_spec d 10).
  - destruct (Z.ltb_spec (48 + d) 58); lia.
  - destruct (Z.ltb_spec (87 + d) 58); lia.
Qed.

Lemma unquote_unicodeEscape c rest :
  codeUnit c -> unquoteBody (unicodeEscape c ++ rest) = c :: unquoteBody rest.
Proof.
  intros Hc. unfold codeUnit in Hc. unfold unicodeEscape.
  cbn [app unquoteBody Z.eqb]. simpl Z.eqb.
  rewrite !hexValue_digitChar by (apply Z.mod_pos_bound; lia).
  f_equal. Z.div_mod_to_equations. lia.
Qed.

Lemma unquote_escapeUnit c rest :
  codeUnit c -> unquoteBody (escapeUnit c ++ rest) = c :: unquoteBody rest.
Proof.
  intros Hc. unfold escapeUnit.
  repeat match goal with
         | |- context [?x =? ?y] =>
             destruct (Z.eqb_spec x y); [subst; reflexivity|]
         end.
  destruct ((c <? 32) || isHighSurrogate c || isLowSurrogate c).
  - apply unquote_unicodeEscape, Hc.
  - cbn [app unquoteBody]. destruct (Z.eqb_spec c 92); [lia|reflexivity].
Qed.

Lemma unquote_escapeUnit_alone c :
  codeUnit c -> unquoteBody (escapeUnit c) = [c].
Proof.
  intros Hc. rewrite <- (app_nil_r (escapeUnit c)).
  rewrite unquote_escapeUnit by assumption. reflexivity.
Qed.

Lemma unquote_quoteBody_bounded (n : nat) :
  forall s, (length s <= n)%nat -> wfString s -> unquoteBody (quoteBody s) = s.
Proof.
  induction n as [|n IH]; intros s Hlen Hwf.
  - destruct s; [reflexivity | simpl in Hlen; lia].
  - destruct s as [|c [|d rest]]; [reflexivity | |].
    + apply unquote_escapeUnit_alone. inversion Hwf; assumption.
    + inversion Hwf as [|? ? Hc Hrest]; subst.
      change (quoteBody (c :: d :: rest))
        with (if isHighSurrogate c && isLowSurrogate d
              then c :: d :: quoteBody rest
              else escapeUnit c ++ quoteBody (d :: rest)).
      destruct (isHighSurrogate c && isLowSurrogate d) eqn:Hpair.
      * apply andb_prop in Hpair as [Hhi Hlo].
        unfold isHighSurrogate in Hhi. unfold isLowSurrogate in Hlo.
        cbn [unquoteBody].
        destruct (Z.eqb_spec c 92); [lia|]. destruct (Z.eqb_spec d 92); [lia|].
        rewrite IH; [reflexivity | simpl in *; lia | inversion Hrest; assumption].
      * rewrite unquote_escapeUnit by assumption.
        rewrite IH; [reflexivity | simpl in *; lia | assumption].
Qed.

Lemma unquote_quoteBody s : wfString s -> unquoteBody (quoteBody s) = s.
Proof. apply (unquote_quoteBody_bounded (length s)). lia. Qed.

(** Different well-formed strings have different JSON texts. *)
Lemma JSON_quote_inj s s' :
  wfString s -> wfString s' -> JSON_quote s = JSON_quote s' -> s = s'.
Proof.
  intros Hs Hs' Heq. unfold JSON_quote in Heq.
  injection Heq as Heq. apply app_inj_tail in Heq as [Heq _].
  rewrite <- (unquote_quoteBody s), <- (unquote_quoteBody s') by assumption.
  rewrite Heq. reflexivity.
Qed.

Lemma joinWith_cons sep x rest :
  joinWith sep (x :: rest) = x ++ joinAfter sep rest.
Proof. destruct rest; simpl; [symmetry; apply app_nil_r | reflexivity]. Qed.

Lemma joinWith_middle sep before x after :
  joinWith sep (before ++ x :: after)
  = joinBefore sep before ++ x ++ joinAfter sep after.
Proof.
  induction before as [|y before IH].
  - apply joinWith_cons.
  - change ((y :: before) ++ x :: after) with (y :: (before ++ x :: after)).
    rewrite joinWith_cons.
    assert (Hafter : joinAfter sep (before ++ x :: after)
                     = sep ++ joinWith sep (before ++ x :: after))
      by (destruct before; reflexivity).
    rewrite Hafter, IH. simpl. rewrite <- !app_assoc. reflexivity.
Qed.

(** Two arrays that differ in one element have different JSON texts. *)
Lemma JSON_stringArray_middle_inj before s s' after :
  wfString s -> wfString s' ->
  JSON_stringArray (before ++ s :: after) = JSON_stringArray (before ++ s' :: after) ->
  s = s'.
Proof.
  intros Hs Hs' Heq. unfold JSON_stringArray in Heq.
  rewrite !map_app, !map_cons, !joinWith_middle in Heq.
  apply app_inv_head in Heq. rewrite !app_assoc in Heq.
  apply app_inv_tail in Heq. apply app_inv_tail in Heq.
  apply app_inv_head in Heq.
  apply JSON_quote_inj; assumption.
Qed.

(** ** The rolling hash: when two hashes are the same string *)

Lemma digitChar_value d : 0 <= d < 36 -> hexValue (digitChar d) = d.
Proof.
  intros Hd. unfold hexValue, digitChar.
  destruct (Z.ltb_spec d 10).
  - destruct (Z.ltb_spec (48 + d) 58); lia.
  - destruct (Z.ltb_spec (87 + d) 58); lia.
Qed.

(** The digits are those of the number, when the recursion is given
    room for them. *)
Lemma digitsRev_value fuel : forall n,
  0 <= n < 2 ^ Z.of_nat fuel -> digitsValue 36 (digitsRev fuel 36 n) = n.
Proof.
  induction fuel as [|fuel IH]; intros n Hn.
  - change (2 ^ Z.of_nat 0) with 1 in Hn. simpl. lia.
  - cbn [digitsRev]. destruct (Z.ltb_spec n 36) as [Hsmall|Hbig]; cbn [digitsValue].
    + rewrite digitChar_value by lia. lia.
    + rewrite digitChar_value by (apply Z.mod_pos_bound; lia).
      rewrite IH.
      * pose proof (Z.div_mod n 36 ltac:(lia)). lia.
      * rewrite Nat2Z.inj_succ, Z.pow_succ_r in Hn by lia.
        split; [apply Z.div_pos; lia|].
        apply Z.div_lt_upper_bound; lia.
Qed.

Lemma integer_toString_value n :
  0 <= n -> digitsValue 36 (rev (integer_toString 36 n)) = n.
Proof.
  intros Hn. unfold integer_toString. rewrite rev_involutive.
  apply digitsRev_value. split; [exact Hn|].
  rewrite Nat2Z.inj_succ, Z2Nat.id by apply Z.log2_nonneg.
  destruct (Z.eq_dec n 0) as [->|Hpos]; [reflexivity|].
  apply Z.log2_spec. lia.
Qed.

(** Base 36 numerals of non-negative integers are read back, so two
    hashes are the same string exactly when the two 32-bit values are
    the same up to sign. *)
Lemma simpleHash_eq_iff a b :
  simpleHash a = simpleHash b <-> Z.abs (hashOf a) = Z.abs (hashOf b).
Proof.
  unfold simpleHash. fold (hashOf a) (hashOf b). split.
  - intros Heq.
    rewrite <- (integer_toString_value (Z.abs (hashOf a))) by apply Z.abs_nonneg.
    rewrite <- (integer_toString_value (Z.abs (hashOf b))) by apply Z.abs_nonneg.
    rewrite Heq. reflexivity.
  - intros ->. reflexivity.
Qed.

(** ** Fingerprint generator: a text node is edited *)

Lemma alter_split {A} (f : A -> A) (l : list A) (i : nat) (x : A) :
  l !! i = Some x ->
  exists l1 l2, l = l1 ++ x :: l2 /\ alter f i l = l1 ++ f x :: l2.
Proof.
  revert i. induction l as [|y l IH]; intros [|i] Hi; try discriminate.
  - injection Hi as ->. exists [], l. split; reflexivity.
  - destruct (IH i Hi) as (l1 & l2 & -> & Halter).
    exists (y :: l1), l2. split; [reflexivity|].
    simpl. f_equal. exact Halter.
Qed.

Lemma flat_map_alter_same {A B} (g : A -> list B) (f : A -> A) (l : list A) (i : nat) :
  (forall x, g (f x) = g x) -> flat_map g (alter f i l) = flat_map g l.
Proof.
  intros Hsame. revert i. induction l as [|y l IH]; intros [|i]; simpl;
    rewrite ?Hsame; try reflexivity.
  f_equal. apply IH.
Qed.

Lemma mutateText_children_length path s n :
  length (children (mutateText path s n)) = length (children n).
Proof. destruct path; simpl; [reflexivity | apply length_alter]. Qed.

Lemma mutateText_colors `{JsRuntime} path s :
  forall n, collectColors (mutateText path s n) = collectColors n.
Proof.
  induction path as [|i path IH]; intros n.
  - rewrite !(collectColors_unfold (mutateText [] s n)), (collectColors_unfold n).
    reflexivity.
  - rewrite (collectColors_unfold (mutateText (i :: path) s n)),
      (collectColors_unfold n).
    simpl children. rewrite (flat_map_alter_same collectColors) by exact IH.
    reflexivity.
Qed.

(** The texts before and after the edited node stay; its own text is
    replaced. *)
Lemma mutateText_texts path s :
  forall n leaf,
    nodeAt path n = Some leaf -> isTEXT leaf = true ->
    exists before after,
      collectTextContent n = before ++ characters leaf :: after
      /\ collectTextContent (mutateText path s n) = before ++ s :: after.
Proof.
  induction path as [|i path IH]; intros n leaf Hat Htext.
  - injection Hat as ->.
    exists [], (flat_map collectTextContent (children leaf)).
    rewrite (collectTextContent_unfold leaf),
      (collectTextContent_unfold (mutateText [] s leaf)).
    unfold ownText. simpl. rewrite Htext.
    unfold isTEXT in *. simpl. rewrite Htext. split; reflexivity.
  - simpl in Hat. destruct (children n !! i) as [child|] eqn:Hchild; [|discriminate].
    destruct (IH child leaf Hat Htext) as (before & after & Hold & Hnew).
    destruct (alter_split (mutateText path s) _ _ _ Hchild)
      as (l1 & l2 & Hkids & Haltered).
    exists (ownText n ++ flat_map collectTextContent l1 ++ before),
      (after ++ flat_map collectTextContent l2).
    rewrite (collectTextContent_unfold n),
      (collectTextContent_unfold (mutateText (i :: path) s n)).
    simpl children. rewrite Haltered, Hkids, !flat_map_app. simpl flat_map.
    rewrite Hold, Hnew. unfold ownText, isTEXT. simpl.
    rewrite <- !app_assoc. simpl. split; reflexivity.
Qed.

(** C5, as the code has it.  Replacing the characters of a text node
    inside the frame by a different string changes the JSON text that
    the fingerprint is the hash of.  The fingerprint itself changes
    exactly when the 32-bit hashes of the old and of the new JSON text
    differ in absolute value: it stays the same when the two hashes are
    equal or opposite. *)
Theorem mutateText_changes_fingerprintJSON `{JsRuntime}
    (frame : SceneNode) (path : list nat) (leaf : SceneNode) (s : jsstring) :
  nodeAt path frame = Some leaf ->
  isTEXT leaf = true ->
  wfString (characters leaf) ->
  wfString s ->
  s <> characters leaf ->
  fingerprintJSON (mutateText path s frame) <> fingerprintJSON frame
  /\ (generateContentHash (mutateText path s frame) = generateContentHash frame
      <-> Z.abs (hashOf (fingerprintJSON (mutateText path s frame)))
          = Z.abs (hashOf (fingerprintJSON frame))).
Proof.
  intros Hat Htext Hwf Hwfs Hne. split; [|apply simpleHash_eq_iff]. intros Heq.
  destruct (mutateText_texts path s frame leaf Hat Htext)
    as (before & after & Hold & Hnew).
  unfold fingerprintJSON, JSON_stringify_fingerprint in Heq.
  rewrite mutateText_children_length, mutateText_colors, Hold, Hnew in Heq.
  repeat (apply app_inv_head in Heq).
  rewrite !app_assoc in Heq. repeat (apply app_inv_tail in Heq).
  apply Hne. eapply JSON_stringArray_middle_inj; eassumption.
Qed.

Lemma mutateText_changes_fingerprintJSON_witness :
  @fingerprintJSON sampleRuntime (mutateText [0%nat] (js "Ab") frameAa)
  <> @fingerprintJSON sampleRuntime frameAa.
Proof.
  apply (proj1 (@mutateText_changes_fingerprintJSON sampleRuntime
                  frameAa [0%nat] (textNode "1:2" "Aa") (js "Ab")
                  ltac:(reflexivity) ltac:(reflexivity)
                  ltac:(repeat constructor; unfold codeUnit; simpl; lia)
                  ltac:(repeat constructor; unfold codeUnit; simpl; lia)
                  ltac:(discriminate))).
Defined.

(** C5, as the claim words it: the text "Aa" of the only text node of
    [frameAa] is replaced by "BB", and the fingerprint is the same. *)
Lemma generateContentHash_collides_on_edit :
  nodeAt [0%nat] frameAa = Some (textNode "1:2" "Aa")
  /\ isTEXT (textNode "1:2" "Aa") = true
  /\ js "BB" <> characters (textNode "1:2" "Aa")
  /\ @generateContentHash sampleRuntime (mutateText [0%nat] (js "BB") frameAa)
     = @generateContentHash sampleRuntime frameAa.
Proof.
  split; [reflexivity|]. split; [reflexivity|]. split; [discriminate|].
  vm_compute. reflexivity.
Qed.

(** The fingerprint can stay the same when the two texts do not have
    the same hash themselves: the JSON texts collide as wholes, or
    their hashes are opposite and the sign is dropped. *)
Example generateContentHash_same_for_other_reasons :
  hashOf (js "Aa") <> hashOf (js "CDAEAJN")
  /\ @generateContentHash sampleRuntime (mutateText [0%nat] (js "CDAEAJN") frameAa)
     = @generateContentHash sampleRuntime frameAa
  /\ hashOf (@fingerprintJSON sampleRuntime (mutateText [0%nat] (js "Heading") frameAa))
     = -627534564
  /\ hashOf (@fingerprintJSON sampleRuntime (mutateText [0%nat] (js "0DBB0:H") frameAa))
     = 627534564
  /\ @generateContentHash sampleRuntime (mutateText [0%nat] (js "Heading") frameAa)
     = @generateContentHash sampleRuntime (mutateText [0%nat] (js "0DBB0:H") frameAa).
Proof.
  split; [vm_compute; discriminate|]. repeat split; vm_compute; reflexivity.
Qed.

(** ** Grouping issues by element *)

Lemma hasKey_false key grouped :
  hasKey key grouped = false <-> ~ In key (keysOf grouped).
Proof.
  unfold hasKey, keysOf. induction grouped as [|[k ms] grouped IH]; simpl.
  - tauto.
  - rewrite orb_false_iff, IH. case_bool_decide; simpl in *; split.
    + intros [? _]. discriminate.
    + intros Hnot. destruct Hnot. left. assumption.
    + intros [_ Hrest] [Hk|Hin]; [congruence | exact (Hrest Hin)].
    + intros Hnot. split; [reflexivity|]. intros Hin. apply Hnot. right. exact Hin.
Qed.

(** Pushing under a key that is new: the array just created gets the
    issue. *)
Lemma pushTo_new key x grouped :
  ~ In key (keysOf grouped) ->
  pushTo key x (grouped ++ [(key, [])]) = grouped ++ [(key, [x])].
Proof.
  unfold keysOf. induction grouped as [|[k ms] grouped IH]; simpl; intros Hnot.
  - rewrite decide_True by reflexivity. reflexivity.
  - rewrite decide_False by (intros ->; apply Hnot; left; reflexivity).
    rewrite IH; [reflexivity|]. intros Hin. apply Hnot. right. exact Hin.
Qed.

(** Pushing under a key that is there: its array grows at the end. *)
Lemma pushTo_old key x grouped :
  In key (keysOf grouped) ->
  exists before members after,
    grouped = before ++ (key, members) :: after
    /\ pushTo key x grouped = before ++ (key, members ++ [x]) :: after.
Proof.
  unfold keysOf. induction grouped as [|[k ms] grouped IH]; simpl; intros Hin.
  - destruct Hin.
  - destruct (decide (k = key)) as [->|Hne].
    + exists [], ms, grouped. split; reflexivity.
    + destruct Hin as [Hk|Hin]; [congruence|].
      destruct (IH Hin) as (before & members & after & -> & Hpush).
      exists ((k, ms) :: before), members, after. simpl. rewrite Hpush.
      split; reflexivity.
Qed.

Lemma filter_none {A} (P : A -> Prop) `{forall x, Decision (P x)} (l : list A) :
  Forall (fun x => ~ P x) l -> filter P l = [].
Proof.
  induction 1 as [|x l Hx _ IH]; [reflexivity|].
  rewrite filter_cons_False by exact Hx. exact IH.
Qed.

Lemma filter_same {A} (P Q : A -> Prop) `{forall x, Decision (P x)}
    `{forall x, Decision (Q x)} (l : list A) :
  Forall (fun x => P x <-> Q x) l -> filter P l = filter Q l.
Proof.
  induction 1 as [|x l Hx _ IH]; [reflexivity|].
  destruct (decide (P x)) as [HP|HP].
  - rewrite !filter_cons_True by tauto. rewrite IH. reflexivity.
  - rewrite !filter_cons_False by tauto. exact IH.
Qed.

Lemma underKey_snoc key processed x :
  underKey key (processed ++ [x])
  = underKey key processed ++ (if decide (groupKey (issue x) = key) then [x] else []).
Proof.
  unfold underKey. rewrite filter_app. reflexivity.
Qed.

(** The arrays of the other keys are not concerned by an issue. *)
Lemma underKey_others (grouped : Grouped) processed x :
  ~ In (groupKey (issue x)) (keysOf grouped) ->
  Forall (fun e => e.2 = underKey e.1 processed) grouped ->
  Forall (fun e => e.2 = underKey e.1 (processed ++ [x])) grouped.
Proof.
  intros Hnot Hord. apply Forall_forall. intros e He.
  rewrite Forall_forall in Hord. rewrite underKey_snoc, decide_False.
  - rewrite app_nil_r. apply Hord, He.
  - intros Hk. apply Hnot. unfold keysOf. rewrite Hk.
    apply (in_map fst), list_elem_of_In, He.
Qed.

Lemma addIssue_inv grouped processed x :
  GroupedInv grouped processed -> GroupedInv (addIssue grouped x) (processed ++ [x]).
Proof.
  intros [Hkeys Hmem Hall Hord]. unfold addIssue.
  destruct (hasKey (groupKey (issue x)) grouped) eqn:Hhas.
  - assert (Hin : In (groupKey (issue x)) (keysOf grouped)).
    { destruct (decide (groupKey (issue x) ∈ keysOf grouped)) as [Hin|Hnot].
      - apply list_elem_of_In. exact Hin.
      - rewrite list_elem_of_In in Hnot. apply hasKey_false in Hnot. congruence. }
    destruct (pushTo_old _ x _ Hin) as (before & members & after & Hg & ->).
    subst grouped. split.
    + unfold keysOf in *. rewrite map_app in *. exact Hkeys.
    + apply Forall_app in Hmem as [Hb Hrest].
      apply Forall_cons in Hrest as [[_ Hms] Ha].
      apply Forall_app. split; [exact Hb|]. constructor; [|exact Ha].
      simpl. split; [destruct members; discriminate|].
      apply Forall_app. split; [exact Hms|]. constructor; [reflexivity|constructor].
    + unfold membersOf in *. rewrite map_app, concat_app in *. simpl in *.
      rewrite <- Hall. rewrite <- !app_assoc.
      apply Permutation_app_head. apply Permutation_app_head.
      apply Permutation_app_comm.
    + unfold keysOf in Hkeys. rewrite map_app in Hkeys. simpl in Hkeys.
      apply NoDup_app in Hkeys as (_ & Hcross & Hright).
      apply NoDup_cons in Hright as [Hafter _].
      apply Forall_app in Hord as [Hb Hrest].
      apply Forall_cons in Hrest as [Hms Ha]. simpl in Hms.
      apply Forall_app. split; [|constructor].
      * apply (underKey_others before); [|exact Hb].
        intros Hk. apply (Hcross (groupKey (issue x))); [apply list_elem_of_In; exact Hk|].
        left.
      * simpl. rewrite underKey_snoc, decide_True by reflexivity. congruence.
      * apply (underKey_others after); [|exact Ha].
        intros Hk. apply Hafter, list_elem_of_In, Hk.
  - apply hasKey_false in Hhas. rewrite pushTo_new by exact Hhas. split.
    + unfold keysOf in *. rewrite map_app. simpl.
      apply NoDup_app. split; [exact Hkeys|]. split.
      * intros k Hk Hk'. apply list_elem_of_In in Hk.
        apply list_elem_of_singleton in Hk'. subst. exact (Hhas Hk).
      * apply NoDup_singleton.
    + apply Forall_app. split; [exact Hmem|]. constructor; [|constructor].
      simpl. split; [discriminate|]. constructor; [reflexivity|constructor].
    + unfold membersOf in *. rewrite map_app, concat_app. simpl.
      rewrite ?app_nil_r. rewrite Hall. reflexivity.
    + apply Forall_app. split; [apply underKey_others; assumption|].
      constructor; [|constructor]. simpl.
      rewrite underKey_snoc, decide_True by reflexivity.
      unfold underKey. rewrite filter_none; [reflexivity|].
      apply Forall_forall. intros m Hm Hk. apply Hhas.
      rewrite <- Hall in Hm. unfold membersOf in Hm.
      apply list_elem_of_In, in_concat in Hm as (l & Hl & Hml).
      apply in_map_iff in Hl as (e & <- & He).
      rewrite Forall_forall in Hmem.
      destruct (Hmem e (proj2 (list_elem_of_In _ _) He)) as [_ Hkeyed].
      rewrite Forall_forall in Hkeyed.
      rewrite <- Hk, (Hkeyed m (proj2 (list_elem_of_In _ _) Hml)).
      unfold keysOf. apply in_map, He.
Qed.

Lemma fold_addIssue_inv l :
  forall grouped processed,
    GroupedInv grouped processed ->
    GroupedInv (fold_left addIssue l grouped) (processed ++ l).
Proof.
  induction l as [|x l IH]; intros grouped processed Hinv; simpl.
  - rewrite app_nil_r. exact Hinv.
  - replace (processed ++ x :: l) with ((processed ++ [x]) ++ l)
      by (rewrite <- app_assoc; reflexivity).
    apply IH, addIssue_inv, Hinv.
Qed.

Lemma grouped_inv issues :
  GroupedInv (fold_left addIssue (withIndex issues) []) (withIndex issues).
Proof.
  apply (fold_addIssue_inv (withIndex issues) [] []).
  split; [constructor | constructor | reflexivity | constructor].
Qed.

Lemma split_at_last_separator {A} (x : A) (a1 b1 a2 b2 : list A) :
  ~ In x b1 -> ~ In x b2 ->
  a1 ++ x :: b1 = a2 ++ x :: b2 -> a1 = a2 /\ b1 = b2.
Proof.
  revert a2. induction a1 as [|y a1 IH]; intros [|z a2] H1 H2 Heq; simpl in Heq.
  - injection Heq as ->. split; reflexivity.
  - injection Heq as -> ->. destruct H1. apply in_or_app. right. left. reflexivity.
  - injection Heq as -> <-. destruct H2. apply in_or_app. right. left. reflexivity.
  - injection Heq as -> Heq. destruct (IH a2 H1 H2 Heq) as [-> ->].
    split; reflexivity.
Qed.

(** With underscore-free ids the key determines name and id. *)
Lemma groupKey_inj i j :
  underscoreFree (elementId i) -> underscoreFree (elementId j) ->
  groupKey i = groupKey j ->
  elementName i = elementName j /\ elementId i = elementId j.
Proof.
  intros Hi Hj Heq. unfold groupKey in Heq.
  change (js "_") with [95] in Heq. simpl in Heq.
  exact (split_at_last_separator 95 _ _ _ _ Hi Hj Heq).
Qed.

Lemma withIndex_indices issues :
  map index (withIndex issues) = seq 0 (length issues).
Proof.
  unfold withIndex.
  assert (Hgen : forall (f : nat -> nat) (l : list AccessibilityIssue) start,
             (forall k, f k = (start + k)%nat) ->
             map index (imap (fun i x => {| issue := x; index := f i |}) l)
             = seq start (length l)).
  { intros f l. revert f. induction l as [|x l IH]; intros f start Hf; simpl.
    - reflexivity.
    - rewrite Hf, Nat.add_0_r. f_equal.
      apply (IH (f ∘ S) (S start)). intros k. simpl. rewrite Hf. lia. }
  apply (Hgen (fun k => k) issues 0%nat). reflexivity.
Qed.

Lemma withIndex_NoDup issues : NoDup (withIndex issues).
Proof.
  apply (NoDup_fmap_1 index). change (index <$> withIndex issues)
    with (map index (withIndex issues)).
  rewrite withIndex_indices. apply NoDup_seq.
Qed.

Lemma withIndex_issue issues m :
  In m (withIndex issues) -> In (issue m) issues.
Proof.
  intros Hin. apply list_elem_of_In in Hin. unfold withIndex in Hin.
  apply elem_of_lookup_imap_1 in Hin as (k & x & -> & Hk). simpl.
  apply list_elem_of_In. eapply list_elem_of_lookup_2. exact Hk.
Qed.

(** In arrays that together hold no element twice, an element is in
    one array only. *)
Lemma NoDup_concat_unique {A} (ls : list (list A)) (l l' : list A) (m : A) :
  NoDup (concat ls) -> In l ls -> In l' ls -> In m l -> In m l' -> l = l'.
Proof.
  induction ls as [|a ls IH]; simpl; intros Hnd Hl Hl' Hm Hm'; [destruct Hl|].
  apply NoDup_app in Hnd as (_ & Hdisj & Hrest).
  assert (Hcross : forall k, In k ls -> In m a -> In m k -> False).
  { intros k Hk Ha Hmk. apply (Hdisj m); [apply list_elem_of_In; exact Ha|].
    apply list_elem_of_In. apply in_concat. exists k. split; assumption. }
  destruct Hl as [<-|Hl], Hl' as [<-|Hl'].
  - reflexivity.
  - destruct (Hcross l' Hl' Hm Hm').
  - destruct (Hcross l Hl Hm' Hm).
  - exact (IH Hrest Hl Hl' Hm Hm').
Qed.

(** Every entry has a first issue, so the final [map] yields a group
    for each entry. *)
Lemma toGroup_all grouped :
  Forall (fun e : jsstring * list IndexedIssue => e.2 <> []) grouped ->
  exists groups,
    mapM toGroup grouped = Some groups
    /\ Forall2 (fun e g => toGroup e = Some g) grouped groups.
Proof.
  intros Hne.
  assert (Hsome : is_Some (mapM toGroup grouped)).
  { apply mapM_is_Some. eapply Forall_impl; [exact Hne|].
    intros [k [|first rest]] Hnonempty; [destruct Hnonempty; reflexivity|].
    simpl. unfold toGroup. simpl. eauto. }
  destruct Hsome as [groups Hgroups]. exists groups. split; [exact Hgroups|].
  apply mapM_Some_1. exact Hgroups.
Qed.

Lemma toGroup_Some e g :
  toGroup e = Some g ->
  group_issues g = e.2
  /\ exists first rest,
       e.2 = first :: rest
       /\ group_elementName g = elementName (issue first)
       /\ group_elementId g = elementId (issue first).
Proof.
  unfold toGroup. destruct (e.2) as [|first rest] eqn:E; [discriminate|].
  intros [= <-]. simpl. split; [reflexivity|]. exists first, rest. auto.
Qed.

(** A group is determined by the array it holds. *)
Lemma toGroup_determined e e' g g' :
  toGroup e = Some g -> toGroup e' = Some g' ->
  group_issues g = group_issues g' -> g = g'.
Proof.
  intros Hg Hg' Hsame.
  destruct (toGroup_Some _ _ Hg) as (Hi & first & rest & He & Hn & Hid).
  destruct (toGroup_Some _ _ Hg') as (Hi' & first' & rest' & He' & Hn' & Hid').
  assert (Hfirst : first = first') by congruence.
  destruct g, g'. simpl in *. subst. f_equal; congruence.
Qed.

Lemma Forall2_in_right {A B} (R : A -> B -> Prop) (l : list A) (k : list B) (y : B) :
  Forall2 R l k -> In y k -> exists x, In x l /\ R x y.
Proof.
  induction 1 as [|x y' l k Hxy _ IH]; simpl; [tauto|].
  intros [->|Hin]; [eauto|]. destruct (IH Hin) as (x' & Hx' & HR). eauto.
Qed.

Lemma groups_hold_the_arrays grouped groups :
  Forall2 (fun e g => toGroup e = Some g) grouped groups ->
  map group_issues groups = map snd grouped.
Proof.
  induction 1 as [|e g grouped groups Hg _ IH]; simpl; [reflexivity|].
  destruct (toGroup_Some _ _ Hg) as [-> _]. rewrite IH. reflexivity.
Qed.

Lemma sum_of_sizes groups :
  sum_list_with (fun g => length (group_issues g)) groups
  = length (concat (map group_issues groups)).
Proof.
  induction groups as [|g groups IH]; simpl; [reflexivity|].
  rewrite length_app, IH. reflexivity.
Qed.

Lemma member_in_all grouped e m :
  In e grouped -> In m e.2 -> In m (membersOf grouped).
Proof.
  intros He Hm. unfold membersOf. apply in_concat. exists e.2.
  split; [apply in_map; exact He | exact Hm].
Qed.

Lemma Forall2_map_eq {A B C} (R : A -> B -> Prop) (f : B -> C) (h : A -> C)
    (l : list A) (k : list B) :
  Forall2 R l k ->
  (forall x y, In x l -> R x y -> f y = h x) ->
  map f k = map h l.
Proof.
  induction 1 as [|x y l k Hxy _ IH]; intros Hfh; simpl; [reflexivity|].
  rewrite (Hfh x y) by (auto; left; reflexivity).
  rewrite IH; [reflexivity|]. intros x' y' Hx'. apply Hfh. right. exact Hx'.
Qed.

(** What a group reports, and what it holds: the key of its entry is
    that of the element it names, and its issues are all those with
    this key. *)
Lemma toGroup_key grouped processed e g :
  GroupedInv grouped processed -> In e grouped -> toGroup e = Some g ->
  group_elementName g ++ js "_" ++ group_elementId g = e.1
  /\ group_issues g = underKey e.1 processed
  /\ exists first, In first e.2
       /\ group_elementName g = elementName (issue first)
       /\ group_elementId g = elementId (issue first).
Proof.
  intros [_ Hmem _ Hord] He Hg.
  destruct (toGroup_Some _ _ Hg) as (Hi & first & rest & Hfirst & Hn & Hid).
  rewrite Forall_forall in Hmem, Hord. apply list_elem_of_In in He.
  destruct (Hmem e He) as [_ Hkeyed]. rewrite Forall_forall in Hkeyed.
  assert (Hin : In first e.2) by (rewrite Hfirst; left; reflexivity).
  split; [|split].
  - rewrite Hn, Hid. apply (Hkeyed first), list_elem_of_In, Hin.
  - rewrite Hi. apply Hord, He.
  - exists first. auto.
Qed.

(** With underscore-free ids, the issues with the key of an element are
    the issues of that element. *)
Lemma issuesOf_underKey issues name id :
  Forall (fun i => underscoreFree (elementId i)) issues ->
  underscoreFree id ->
  issuesOf name id issues = underKey (name ++ js "_" ++ id) (withIndex issues).
Proof.
  intros Hids Hid. unfold issuesOf, underKey. apply filter_same.
  apply Forall_forall. intros m Hm. apply list_elem_of_In, withIndex_issue in Hm.
  rewrite Forall_forall in Hids. apply list_elem_of_In, Hids in Hm.
  unfold groupKey. change (js "_") with [95]. simpl. split.
  - intros [-> ->]. reflexivity.
  - intros Heq. exact (split_at_last_separator 95 _ _ _ _ Hm Hid Heq).
Qed.

(** A key made with a node id is none of the names that the object
    [grouped] inherits: those have no underscore, or end with one. *)
Lemma groupKey_not_inherited i :
  nodeId (elementId i) -> ~ In (groupKey i) inheritedKeys.
Proof.
  intros [Hne Hfree] Hin.
  assert (H95 : In 95 (groupKey i)).
  { unfold groupKey. apply in_or_app. right. left. reflexivity. }
  assert (Hlast : exists c, last (groupKey i) = Some c /\ c <> 95).
  { destruct (proj2 (last_is_Some (elementId i)) Hne) as [c Hc].
    exists c. split.
    - unfold groupKey. rewrite !last_app, Hc. reflexivity.
    - intros ->. apply Hfree, list_elem_of_In, last_Some_elem_of, Hc. }
  destruct Hlast as (c & Hlast & Hc).
  unfold inheritedKeys in Hin. simpl in Hin.
  repeat (destruct Hin as [Hin|Hin]; [rewrite <- Hin in H95, Hlast; clear Hin|]);
    try (vm_compute in Hlast; injection Hlast as <-; apply Hc; reflexivity);
    try (vm_compute in H95; intuition discriminate).
Qed.

(** C10, for the issue lists the plugin builds, whose element ids are
    node ids.  The grouping returns, and its groups partition the
    issues (each paired with its position in the input): every issue is
    in exactly one group, which is the group that reports the issue's
    elementName and elementId; a group holds all the issues of the
    element it reports and no other, in the order of the input; no two
    groups report the same element; and the sizes of the groups add up
    to the length of the input.  No key is a property name that the
    object [grouped] inherits, so that looking a key up finds what the
    loop stored under it. *)
Theorem groupIssuesByElement_partitions (issues : list AccessibilityIssue) :
  Forall (fun i => nodeId (elementId i)) issues ->
  exists groups,
    groupIssuesByElement issues = Some groups
    /\ concat (map group_issues groups) ≡ₚ withIndex issues
    /\ (forall k x, issues !! k = Some x ->
          exists g,
            In g groups
            /\ group_elementName g = elementName x
            /\ group_elementId g = elementId x
            /\ In {| issue := x; index := k |} (group_issues g)
            /\ forall g', In g' groups ->
                 In {| issue := x; index := k |} (group_issues g') -> g' = g)
    /\ (forall g, In g groups ->
          group_issues g <> []
          /\ group_issues g
             = issuesOf (group_elementName g) (group_elementId g) issues)
    /\ NoDup (map (fun g => (group_elementName g, group_elementId g)) groups)
    /\ sum_list_with (fun g => length (group_issues g)) groups = length issues
    /\ Forall (fun i => ~ In (groupKey i) inheritedKeys) issues.
Proof.
  intros Hnode.
  assert (Hids : Forall (fun i => underscoreFree (elementId i)) issues).
  { eapply Forall_impl; [exact Hnode|]. intros i [_ Hfree]. exact Hfree. }
  pose proof (grouped_inv issues) as Hinv.
  pose proof Hinv as [Hkeys Hmem Hall Hord].
  set (grouped := fold_left addIssue (withIndex issues) []) in *.
  destruct (toGroup_all grouped) as (groups & Hmap & Hrel).
  { eapply Forall_impl; [exact Hmem|]. intros e [Hne _]. exact Hne. }
  pose proof (groups_hold_the_arrays _ _ Hrel) as Harrays.
  assert (Hperm : concat (map group_issues groups) ≡ₚ withIndex issues).
  { rewrite Harrays. exact Hall. }
  assert (Hnodup : NoDup (concat (map group_issues groups))).
  { rewrite Hperm. apply withIndex_NoDup. }
  assert (Hgroup : forall g, In g groups ->
            group_issues g <> []
            /\ group_issues g
               = issuesOf (group_elementName g) (group_elementId g) issues).
  { intros g Hg.
    destruct (Forall2_in_right _ _ _ _ Hrel Hg) as (e & He & Hgroup).
    destruct (toGroup_key grouped _ e g Hinv He Hgroup)
      as (Hkey & Hissues & first & Hfirst & Hn & Hid).
    destruct (toGroup_Some _ _ Hgroup) as (Hi & _).
    split.
    - rewrite Hi. intros Hnil. rewrite Hnil in Hfirst. destruct Hfirst.
    - rewrite issuesOf_underKey, Hkey; [exact Hissues | exact Hids |].
      rewrite Hid. rewrite Forall_forall in Hids. apply Hids.
      apply list_elem_of_In, withIndex_issue. apply list_elem_of_In.
      rewrite <- Hall. apply list_elem_of_In.
      exact (member_in_all grouped e first He Hfirst). }
  exists groups. split; [exact Hmap|]. split; [exact Hperm|].
  split; [|split; [exact Hgroup|split; [|split]]].
  - intros k x Hk.
    assert (Hin : In {| issue := x; index := k |} (concat (map group_issues groups))).
    { apply list_elem_of_In. rewrite Hperm. unfold withIndex.
      apply (elem_of_lookup_imap_2 (fun i y => {| issue := y; index := i |})).
      exact Hk. }
    apply in_concat in Hin as (l & Hl & Hm).
    apply in_map_iff in Hl as (g & <- & Hg).
    exists g. split; [exact Hg|].
    assert (Hof : {| issue := x; index := k |}
                  ∈ issuesOf (group_elementName g) (group_elementId g) issues).
    { destruct (Hgroup g Hg) as [_ <-]. apply list_elem_of_In, Hm. }
    unfold issuesOf in Hof. apply list_elem_of_filter in Hof as [[Hn Hid] _].
    simpl in Hn, Hid. split; [congruence|]. split; [congruence|].
    split; [exact Hm|].
    intros g' Hg' Hm'.
    destruct (Forall2_in_right _ _ _ _ Hrel Hg) as (e & _ & He).
    destruct (Forall2_in_right _ _ _ _ Hrel Hg') as (e' & _ & He').
    apply (toGroup_determined e' e g' g He' He).
    apply (NoDup_concat_unique (map group_issues groups) _ _
             {| issue := x; index := k |} Hnodup);
      [apply in_map; exact Hg' | apply in_map; exact Hg | exact Hm' | exact Hm].
  - apply (NoDup_fmap_1 (fun pair : jsstring * jsstring => pair.1 ++ js "_" ++ pair.2)).
    change (NoDup (map (fun pair : jsstring * jsstring => pair.1 ++ js "_" ++ pair.2)
                     (map (fun g => (group_elementName g, group_elementId g)) groups))).
    rewrite map_map. simpl.
    rewrite (Forall2_map_eq _ _ fst _ _ Hrel); [exact Hkeys|].
    intros e g He Hg.
    destruct (toGroup_key grouped _ e g Hinv He Hg) as (Hkey & _). exact Hkey.
  - rewrite sum_of_sizes, Hperm. unfold withIndex. apply length_imap.
  - eapply Forall_impl; [exact Hnode|]. intros i. apply groupKey_not_inherited.
Qed.

Lemma groupIssuesByElement_partitions_witness :
  exists groups,
    groupIssuesByElement figmaIssues = Some groups
    /\ NoDup (map (fun g => (group_elementName g, group_elementId g)) groups)
    /\ sum_list_with (fun g => length (group_issues g)) groups = length figmaIssues.
Proof.
  destruct (groupIssuesByElement_partitions figmaIssues)
    as (groups & Hmap & _ & _ & _ & Hdistinct & Hsum & _).
  - repeat constructor; try discriminate; vm_compute; intuition discriminate.
  - exists groups. auto.
Defined.

Example groupIssuesByElement_sample :
  groupIssuesByElement figmaIssues
  = Some [ {| group_elementName := js "Title"; group_elementId := js "1:2";
              group_issues := [ {| issue := sampleIssue "Title" "1:2"; index := 0 |};
                                {| issue := sampleIssue "Title" "1:2"; index := 2 |} ] |};
           {| group_elementName := js "Body_text"; group_elementId := js "1:3";
              group_issues := [ {| issue := sampleIssue "Body_text" "1:3"; index := 1 |} ] |} ].
Proof. vm_compute. reflexivity. Qed.

(** Why the ids must be node ids: were an id to hold an underscore, two
    elements could share a key.  The issues of ("a_b", "c") and of
    ("a", "b_c") land in one group, which reports the first. *)
Example groupKey_needs_node_ids :
  groupIssuesByElement collidingIssues
  = Some [ {| group_elementName := js "a_b"; group_elementId := js "c";
              group_issues := [ {| issue := sampleIssue "a_b" "c"; index := 0 |};
                                {| issue := sampleIssue "a" "b_c"; index := 1 |} ] |} ]
  /\ elementName (sampleIssue "a" "b_c") <> js "a_b"
  /\ elementId (sampleIssue "a" "b_c") <> js "c".
Proof.
  split; [vm_compute; reflexivity|]. split; discriminate.
Qed.

(** Grouping never fails: the [map] over the entries finds a first
    issue in each. *)
Lemma groupIssuesByElement_total issues :
  exists groups, groupIssuesByElement issues = Some groups.
Proof.
  pose proof (grouped_inv issues) as [_ Hmem _ _].
  destruct (toGroup_all (fold_left addIssue (withIndex issues) [])) as (groups & Hmap & _).
  - eapply Forall_impl; [exact Hmem|]. intros e [Hne _]. exact Hne.
  - exists groups. exact Hmap.
Qed.

(** ** Running the handler *)

Ltac run :=
  repeat (unfold mbind, M_bind, mret, M_ret, gets, modify, emit, postMessage,
            notify, Date_now, elapse, when, throw, tryCatch, clearOverlays,
            reportFailure; simpl).

(** The lookup returns normally and touches neither clock nor trace nor
    selection. *)
Lemma getCachedAnalysis_returns `{JsRuntime} frame w :
  exists r w1,
    getCachedAnalysis frame w = (Ok r, w1)
    /\ clock w1 = clock w /\ trace w1 = trace w
    /\ selectedFrame w1 = selectedFrame w.
Proof.
  unfold getCachedAnalysis. run.
  destruct (analysisCache w !! node_id frame) as [c|]; run.
  - destruct (isCacheValid (clock w) frame c); run; eauto 10.
  - destruct (pluginData w !! node_id frame) as [[text| |c]|]; run; eauto 10.
    destruct (isCacheValid (clock w) frame c); run; eauto 10.
Qed.

(** The lookup does not read the pause flag or the progress counter. *)
Lemma getCachedAnalysis_after_reset `{JsRuntime} frame w paused progress :
  getCachedAnalysis frame (with_analysisProgress progress (with_isPaused paused w))
  = let '(r, w1) := getCachedAnalysis frame w in
    (r, with_analysisProgress progress (with_isPaused paused w1)).
Proof.
  unfold getCachedAnalysis. run.
  destruct (analysisCache w !! node_id frame) as [c|]; run.
  - destruct (isCacheValid (clock w) frame c); reflexivity.
  - destruct (pluginData w !! node_id frame) as [[text| |c]|]; run; try reflexivity.
    destruct (isCacheValid (clock w) frame c); reflexivity.
Qed.

(** A lookup that finds nothing valid stores nothing: what the two
    tiers hold afterwards, they held before. *)
Lemma getCachedAnalysis_miss_shrinks `{JsRuntime} frame w w1 :
  getCachedAnalysis frame w = (Ok None, w1) ->
  analysisCache w1 ⊆ analysisCache w /\ pluginData w1 ⊆ pluginData w.
Proof.
  unfold getCachedAnalysis. run.
  destruct (analysisCache w !! node_id frame) as [c|] eqn:Htier1; run.
  - destruct (isCacheValid (clock w) frame c); run; intros [= <-]; simpl.
    split; apply delete_subseteq.
  - destruct (pluginData w !! node_id frame) as [[text| |c]|]; run;
      try (intros [= <-]; split; reflexivity).
    destruct (isCacheValid (clock w) frame c); run; intros [= <-]; simpl.
    split; [|apply delete_subseteq].
    rewrite delete_insert_eq. apply delete_subseteq.
Qed.

(** An entry that a lookup returns is returned again by any world with
    the same two tiers, for as long as it is valid. *)
Lemma getCachedAnalysis_hit_stable `{JsRuntime} frame w w1 c w2 :
  getCachedAnalysis frame w = (Ok (Some c), w1) ->
  analysisCache w2 = analysisCache w ->
  pluginData w2 = pluginData w ->
  isCacheValid (clock w2) frame c = true ->
  exists w3, getCachedAnalysis frame w2 = (Ok (Some c), w3).
Proof.
  unfold getCachedAnalysis. run. intros Hhit Htier1 Htier2 Hvalid.
  rewrite Htier1. revert Hhit.
  destruct (analysisCache w !! node_id frame) as [c'|]; run.
  - destruct (isCacheValid (clock w) frame c'); run; intros [= -> _].
    rewrite Hvalid. eauto.
  - rewrite Htier2.
    destruct (pluginData w !! node_id frame) as [[text| |c']|]; run;
      try discriminate.
    destruct (isCacheValid (clock w) frame c'); run; intros [= -> _].
    rewrite Hvalid. eauto.
Qed.

(** From here on the pieces of the handler are unfolded by name only. *)
Arguments js : simpl never.
Arguments serveFromCache : simpl never.
Arguments runFreshAnalysis : simpl never.
Arguments startFreshAnalysis : simpl never.
Arguments enhanceIfAsked : simpl never.
Arguments storeAndReport : simpl never.
Arguments getCachedAnalysis : simpl never.
Arguments setCachedAnalysis : simpl never.
Arguments groupIssuesByElement : simpl never.
Arguments generateContentHash : simpl never.
Arguments getCacheAge : simpl never.
Arguments isCacheValid : simpl never.
Arguments countElements : simpl never.

(** The cache hit, step by step: the first thing it does is post the
    cached result, and it leaves the two tiers alone. *)
Lemma serveFromCache_run env msg frame cached w :
  exists groups rest r w',
    serveFromCache env msg frame cached w = (r, w')
    /\ groupIssuesByElement (results cached) = Some groups
    /\ trace w' = trace w ++
         PostMessage (MsgAnalysisComplete groups (length (results cached)) true
                        (Some (getCacheAge (clock w) (timestamp cached)))) :: rest
    /\ Forall localEvent rest
    /\ analysisCache w' = analysisCache w
    /\ pluginData w' = pluginData w.
Proof.
  destruct (groupIssuesByElement_total (results cached)) as [groups Hgroups].
  exists groups. unfold serveFromCache, grouping, createOverlayFrame.
  rewrite Hgroups. run.
  destruct (bool_decide (0 < length (results cached))%nat && showOverlay msg); run;
    [destruct (overlayThrows env); run|];
    eexists _, _, _; (split; [reflexivity|]); (split; [reflexivity|]);
    simpl; rewrite <- ?app_assoc; simpl;
    (split; [reflexivity|]); repeat constructor.
Qed.

(** The handler on a request that the lookup can answer. *)
Lemma handleAnalyze_hit `{JsRuntime} env msg frame cached w w1 :
  selectedFrame w = Some frame ->
  forceReanalyze msg = false ->
  getCachedAnalysis frame w = (Ok (Some cached), w1) ->
  exists groups rest w',
    handleAnalyze env msg w = (Ok tt, w')
    /\ groupIssuesByElement (results cached) = Some groups
    /\ trace w' = trace w ++
         PostMessage (MsgAnalysisComplete groups (length (results cached)) true
                        (Some (getCacheAge (clock w) (timestamp cached)))) :: rest
    /\ Forall localEvent rest
    /\ analysisCache w' = analysisCache w1
    /\ pluginData w' = pluginData w1.
Proof.
  intros Hsel Hforce Hhit.
  destruct (getCachedAnalysis_returns frame w) as (r & w1' & Hr & Hclock & Htrace & _).
  rewrite Hhit in Hr. injection Hr as <- <-.
  unfold handleAnalyze. run. rewrite Hsel, Hforce. run.
  rewrite getCachedAnalysis_after_reset, Hhit.
  destruct (serveFromCache_run env msg frame cached
              (with_analysisProgress 0 (with_isPaused false w1)))
    as (groups & rest & r & w' & Hrun & Hgroups & Htr & Hlocal & Ht1 & Ht2).
  rewrite Hrun. simpl in Htr, Ht1, Ht2. rewrite Htrace, Hclock in Htr.
  exists groups. destruct r as [[]|error]; run.
  - exists rest, w'. repeat split; auto.
  - eexists (rest ++ [_; _]), _. split; [reflexivity|]. split; [exact Hgroups|].
    simpl. rewrite Htr, <- !app_assoc. simpl.
    split; [reflexivity|]. split; [|auto].
    apply Forall_app. split; [exact Hlocal|]. repeat constructor.
Qed.

(** C2.  With a frame selected for which the lookup finds a valid entry,
    a request that does not force a re-run answers with one
    [analysis-complete] message that carries the grouped cached issues,
    their number, [fromCache: true] and the age of the entry; nothing
    else the run does is a run of the Analysis Driver or a network
    request. *)
Theorem analyze_serves_valid_cache_entry `{JsRuntime}
    (env : Environment) (msg : AnalyzeMsg) (frame : SceneNode)
    (cached : CachedAnalysis) (w w1 : World) :
  selectedFrame w = Some frame ->
  forceReanalyze msg = false ->
  getCachedAnalysis frame w = (Ok (Some cached), w1) ->
  exists groups rest w',
    handleAnalyze env msg w = (Ok tt, w')
    /\ groupIssuesByElement (results cached) = Some groups
    /\ trace w' = trace w ++
         PostMessage (MsgAnalysisComplete groups (length (results cached)) true
                        (Some (getCacheAge (clock w) (timestamp cached)))) :: rest
    /\ Forall localEvent rest.
Proof.
  intros Hsel Hforce Hhit.
  destruct (handleAnalyze_hit env msg frame cached w w1 Hsel Hforce Hhit)
    as (groups & rest & w' & Hrun & Hgroups & Htr & Hlocal & _).
  exists groups, rest, w'. auto.
Qed.

Lemma analyze_serves_valid_cache_entry_witness :
  exists groups rest w',
    @handleAnalyze sampleRuntime quietEnvironment (plainRequest false) cachedWorld
    = (Ok tt, w')
    /\ groupIssuesByElement (results entryAa) = Some groups
    /\ trace w' = trace cachedWorld ++
         PostMessage (MsgAnalysisComplete groups (length (results entryAa)) true
                        (Some (getCacheAge (clock cachedWorld) (timestamp entryAa))))
         :: rest
    /\ Forall localEvent rest.
Proof.
  apply (@analyze_serves_valid_cache_entry sampleRuntime quietEnvironment
           (plainRequest false) frameAa entryAa cachedWorld cachedWorld).
  - reflexivity.
  - reflexivity.
  - vm_compute. reflexivity.
Defined.

Example analyze_from_cache_sample :
  trace (@handleAnalyze sampleRuntime quietEnvironment (plainRequest false) cachedWorld).2
  = [PostMessage
       (MsgAnalysisComplete
          [{| group_elementName := js "Title"; group_elementId := js "1:2";
              group_issues := [{| issue := sampleIssue "Title" "1:2"; index := 0 |}] |}]
          1 true (Some (js "just now")));
     Notify (NotifyLoadedFromCache (js "just now"))].
Proof. vm_compute. reflexivity. Qed.

(** ** Local cache store: a payload that does not parse *)

(** C6, as the code has it.  When memory holds no entry for the frame
    and the text in its slot does not parse, the lookup returns [null]
    without throwing, and changes nothing: the text stays in the slot. *)
Theorem getCachedAnalysis_unparsable_payload `{JsRuntime}
    (frame : SceneNode) (w : World) (text : jsstring) :
  analysisCache w !! node_id frame = None ->
  pluginData w !! node_id frame = Some (Unparsable text) ->
  getCachedAnalysis frame w = (Ok None, w).
Proof.
  intros Htier1 Htier2. unfold getCachedAnalysis. run.
  rewrite Htier1. run. rewrite Htier2. reflexivity.
Qed.

Lemma getCachedAnalysis_unparsable_payload_witness :
  @getCachedAnalysis sampleRuntime frameAa corruptWorld = (Ok None, corruptWorld).
Proof.
  apply (@getCachedAnalysis_unparsable_payload sampleRuntime frameAa corruptWorld (js "{")).
  - reflexivity.
  - reflexivity.
Defined.

(** C6, as the claim words it: after the lookup the text that does not
    parse is still in the slot of the frame. *)
Lemma getCachedAnalysis_keeps_unparsable_payload :
  analysisCache corruptWorld !! js "1:1" = None
  /\ pluginData corruptWorld !! js "1:1" = Some (Unparsable (js "{"))
  /\ (@getCachedAnalysis sampleRuntime frameAa corruptWorld).1 = Ok None
  /\ pluginData (@getCachedAnalysis sampleRuntime frameAa corruptWorld).2 !! js "1:1"
     <> None.
Proof.
  split; [reflexivity|]. split; [reflexivity|]. split; [reflexivity|].
  vm_compute. discriminate.
Qed.

(** ** Cache coordinator: the Analysis Driver fails *)

(** Reading the new events off the trace. *)
Lemma newEvents_of {A} (m : M A) w new :
  trace (m w).2 = trace w ++ new -> newEvents m w = new.
Proof. intros Htr. unfold newEvents. rewrite Htr. apply drop_app_length. Qed.

(** A fresh analysis whose driver throws stops there: nothing after
    [analyzeFrame] runs, [setCachedAnalysis] included. *)
Lemma runFreshAnalysis_throws `{JsRuntime} env msg frame error w :
  driverThrows env = Some error ->
  exists w',
    runFreshAnalysis env msg frame w = (Throw error, w')
    /\ trace w' = trace w ++ [ClearOverlays;
                              PostMessage (MsgAnalysisProgress 0 (countElements frame));
                              AnalyzeFrame (node_id frame)]
    /\ analysisCache w' = analysisCache w
    /\ pluginData w' = pluginData w
    /\ selectedFrame w' = selectedFrame w.
Proof.
  intros Hthrows. unfold runFreshAnalysis, startFreshAnalysis, analyzeFrame. run.
  rewrite Hthrows.
  eexists. split; [reflexivity|]. simpl. rewrite <- !app_assoc. simpl. auto.
Qed.

(** The two ways into a fresh analysis: a forced request, and a
    request for which the lookup finds nothing valid. *)
Lemma handleAnalyze_forced `{JsRuntime} env msg frame w :
  selectedFrame w = Some frame ->
  forceReanalyze msg = true ->
  handleAnalyze env msg w
  = catchFailure (runFreshAnalysis env msg frame (resetProgress w)).
Proof.
  intros Hsel Hforce. unfold handleAnalyze, catchFailure, resetProgress. run.
  rewrite Hsel, Hforce. simpl.
  destruct (runFreshAnalysis env msg frame _) as [[[]|e] w1]; reflexivity.
Qed.

Lemma handleAnalyze_miss `{JsRuntime} env msg frame w w1 :
  selectedFrame w = Some frame ->
  forceReanalyze msg = false ->
  getCachedAnalysis frame w = (Ok None, w1) ->
  handleAnalyze env msg w
  = catchFailure (runFreshAnalysis env msg frame (resetProgress w1)).
Proof.
  intros Hsel Hforce Hmiss. unfold handleAnalyze, catchFailure, resetProgress. run.
  rewrite Hsel, Hforce. simpl. rewrite getCachedAnalysis_after_reset, Hmiss.
  destruct (runFreshAnalysis env msg frame _) as [[[]|e] w2]; reflexivity.
Qed.

(** A fresh analysis whose driver run fails: what the handler leaves
    behind, from the world [w0] in which the analysis starts. *)
Lemma failed_run_outcome `{JsRuntime} env msg frame error w0 :
  driverThrows env = Some error ->
  exists w',
    catchFailure (runFreshAnalysis env msg frame w0) = (Ok tt, w')
    /\ trace w' = trace w0 ++ [ClearOverlays;
                               PostMessage (MsgAnalysisProgress 0 (countElements frame));
                               AnalyzeFrame (node_id frame);
                               PostMessage (MsgError (js "Analysis failed: " ++ error));
                               Notify NotifyAnalysisFailed]
    /\ analysisCache w' = analysisCache w0
    /\ pluginData w' = pluginData w0
    /\ selectedFrame w' = selectedFrame w0.
Proof.
  intros Hthrows.
  destruct (runFreshAnalysis_throws env msg frame error w0 Hthrows)
    as (w1 & -> & Htr & Ht1 & Ht2 & Hsel).
  eexists. split; [reflexivity|]. simpl. rewrite Htr, <- !app_assoc. simpl. auto.
Qed.

(** C8.  A request with a frame selected, in the course of which the
    Analysis Driver runs and throws, ends with the message
    ['Analysis failed: ' + error] posted; the two tiers of the cache hold
    nothing afterwards that they did not hold before; and an entry that
    a lookup would have returned before the request is still in place
    and is served by the next request that does not force a re-run, at
    any time at which it is still valid. *)
Theorem failed_analysis_keeps_cache `{JsRuntime} env msg frame error w :
  selectedFrame w = Some frame ->
  driverThrows env = Some error ->
  In (AnalyzeFrame (node_id frame)) (newEvents (handleAnalyze env msg) w) ->
  exists w',
    handleAnalyze env msg w = (Ok tt, w')
    /\ In (PostMessage (MsgError (js "Analysis failed: " ++ error)))
         (newEvents (handleAnalyze env msg) w)
    /\ analysisCache w' ⊆ analysisCache w
    /\ pluginData w' ⊆ pluginData w
    /\ forall cached w1,
         getCachedAnalysis frame w = (Ok (Some cached), w1) ->
         analysisCache w' = analysisCache w
         /\ pluginData w' = pluginData w
         /\ forall env' msg' t,
              forceReanalyze msg' = false ->
              isCacheValid t frame cached = true ->
              exists groups rest w'',
                handleAnalyze env' msg' (with_clock t w') = (Ok tt, w'')
                /\ groupIssuesByElement (results cached) = Some groups
                /\ trace w'' = trace w' ++
                     PostMessage (MsgAnalysisComplete groups (length (results cached))
                                    true (Some (getCacheAge t (timestamp cached)))) :: rest
                /\ Forall localEvent rest.
Proof.
  intros Hsel Hthrows Hran.
  destruct (forceReanalyze msg) eqn:Hforce.
  - (* forced: the cache is not consulted *)
    destruct (failed_run_outcome env msg frame error (resetProgress w) Hthrows)
      as (w' & Hrun & Htr & Ht1 & Ht2 & Hsel').
    rewrite <- (handleAnalyze_forced env msg frame w Hsel Hforce) in Hrun.
    simpl in Htr, Ht1, Ht2, Hsel'.
    exists w'. split; [exact Hrun|]. split.
    { rewrite (newEvents_of _ w _ ltac:(rewrite Hrun; exact Htr)). simpl. tauto. }
    split; [rewrite Ht1; reflexivity|]. split; [rewrite Ht2; reflexivity|].
    intros cached w1 Hhit. split; [exact Ht1|]. split; [exact Ht2|].
    intros env' msg' t Hforce' Hvalid.
    destruct (getCachedAnalysis_hit_stable frame w w1 cached (with_clock t w') Hhit)
      as [w3 Hhit']; [exact Ht1 | exact Ht2 | exact Hvalid |].
    destruct (handleAnalyze_hit env' msg' frame cached (with_clock t w') w3)
      as (groups & rest & w'' & Hrun' & Hgroups & Htr' & Hlocal & _);
      [simpl; congruence | exact Hforce' | exact Hhit' |].
    exists groups, rest, w''. auto.
  - (* not forced: the driver ran, so the lookup found nothing valid *)
    destruct (getCachedAnalysis_returns frame w) as (r & w1 & Hlookup & _ & Htrace & Hsel1).
    destruct r as [cached|].
    + exfalso.
      destruct (handleAnalyze_hit env msg frame cached w w1 Hsel Hforce Hlookup)
        as (groups & rest & w' & Hrun & _ & Htr & Hlocal & _).
      rewrite (newEvents_of _ w _ ltac:(rewrite Hrun; exact Htr)) in Hran.
      destruct Hran as [Hran|Hran]; [discriminate|].
      rewrite Forall_forall in Hlocal. apply list_elem_of_In in Hran.
      exact (Hlocal _ Hran).
    + destruct (getCachedAnalysis_miss_shrinks frame w w1 Hlookup) as [Hsub1 Hsub2].
      destruct (failed_run_outcome env msg frame error (resetProgress w1) Hthrows)
        as (w' & Hrun & Htr & Ht1 & Ht2 & Hsel').
      rewrite <- (handleAnalyze_miss env msg frame w w1 Hsel Hforce Hlookup) in Hrun.
      simpl in Htr, Ht1, Ht2, Hsel'. rewrite Htrace in Htr.
      exists w'. split; [exact Hrun|]. split.
      { rewrite (newEvents_of _ w _ ltac:(rewrite Hrun; exact Htr)). simpl. tauto. }
      split; [rewrite Ht1; exact Hsub1|]. split; [rewrite Ht2; exact Hsub2|].
      intros cached w1' Hhit. congruence.
Qed.

Lemma failed_analysis_keeps_cache_witness :
  exists w',
    @handleAnalyze sampleRuntime failingEnvironment (plainRequest true) cachedWorld
    = (Ok tt, w')
    /\ analysisCache w' = analysisCache cachedWorld
    /\ pluginData w' = pluginData cachedWorld.
Proof.
  destruct (@failed_analysis_keeps_cache sampleRuntime failingEnvironment
              (plainRequest true) frameAa (js "TypeError") cachedWorld)
    as (w' & Hrun & _ & _ & _ & Hkept).
  - reflexivity.
  - reflexivity.
  - vm_compute. right. right. left. reflexivity.
  - destruct (Hkept entryAa cachedWorld) as (Htier1 & Htier2 & _).
    + vm_compute. reflexivity.
    + exists w'. auto.
Defined.

Example failed_analysis_sample :
  trace (@handleAnalyze sampleRuntime failingEnvironment (plainRequest true) cachedWorld).2
  = [ClearOverlays; PostMessage (MsgAnalysisProgress 0 2); AnalyzeFrame (js "1:1");
     PostMessage (MsgError (js "Analysis failed: TypeError"));
     Notify NotifyAnalysisFailed].
Proof. vm_compute. reflexivity. Qed.

(** ** What the handler asks of the network *)

Section Emits.
Context (P : Event -> Prop).

Lemma Emits_ret {A} (a : A) : Emits P (mret a).
Proof. intros w. exists []. rewrite app_nil_r. split; [reflexivity|constructor]. Qed.

Lemma Emits_gets {A} (f : World -> A) : Emits P (gets f).
Proof. intros w. exists []. rewrite app_nil_r. split; [reflexivity|constructor]. Qed.

Lemma Emits_throw {A} e : Emits P (@throw A e).
Proof. intros w. exists []. rewrite app_nil_r. split; [reflexivity|constructor]. Qed.

Lemma Emits_modify f : (forall w, trace (f w) = trace w) -> Emits P (modify f).
Proof.
  intros Hf w. exists []. rewrite app_nil_r. split; [apply Hf|constructor].
Qed.

Lemma Emits_emit e : P e -> Emits P (emit e).
Proof. intros He w. exists [e]. split; [reflexivity|]. repeat constructor. exact He. Qed.

Lemma Emits_bind {A B} (m : M A) (f : A -> M B) :
  Emits P m -> (forall a, Emits P (f a)) -> Emits P (m ≫= f).
Proof.
  intros Hm Hf w. destruct (Hm w) as (new1 & Htr1 & Hnew1).
  unfold mbind, M_bind. destruct (m w) as [[a|e] w1]; simpl in *.
  - destruct (Hf a w1) as (new2 & Htr2 & Hnew2).
    exists (new1 ++ new2). rewrite Htr2, Htr1, app_assoc.
    split; [reflexivity|]. apply Forall_app. split; assumption.
  - exists new1. split; assumption.
Qed.

Lemma Emits_tryCatch {A} (body : M A) (handler : jsstring -> M A) :
  Emits P body -> (forall e, Emits P (handler e)) -> Emits P (tryCatch body handler).
Proof.
  intros Hm Hf w. destruct (Hm w) as (new1 & Htr1 & Hnew1).
  unfold tryCatch. destruct (body w) as [[a|e] w1]; simpl in *.
  - exists new1. split; assumption.
  - destruct (Hf e w1) as (new2 & Htr2 & Hnew2).
    exists (new1 ++ new2). rewrite Htr2, Htr1, app_assoc.
    split; [reflexivity|]. apply Forall_app. split; assumption.
Qed.

End Emits.

(** Composing the rules along the structure of a computation. *)
Ltac emits :=
  repeat first
    [ apply Emits_ret | apply Emits_gets | apply Emits_throw
    | apply Emits_modify; reflexivity
    | apply Emits_emit
    | apply Emits_bind; [|intros ?]
    | apply Emits_tryCatch; [|intros ?]
    | match goal with
      | |- Emits _ (match ?x with _ => _ end) => destruct x
      end ].

(** Every path through the handler, checked rule by rule. *)
Lemma handleAnalyze_emits `{JsRuntime} env msg :
  Emits notToRemoteStore (handleAnalyze env msg).
Proof.
  unfold handleAnalyze, reportFailure, runFreshAnalysis, startFreshAnalysis,
    enhanceIfAsked, storeAndReport, serveFromCache, getCachedAnalysis,
    setCachedAnalysis, clearFrameCache, analyzeFrame, enhanceWithAI,
    createOverlayFrame, clearOverlays, grouping, postMessage, notify, when,
    elapse, Date_now.
  emits.
  all: try (intros url Hurl; congruence).
Qed.

(** C3, on the code.  Whatever the request and the environment, the
    handler sends no request to the remote history store: neither the
    one of [saveAnalysis] nor the one of [resolveFrameChanges]; the only
    request it can send is the one of the AI call.  A fresh analysis
    ends with the write to the local cache. *)
Theorem analyze_sends_nothing_to_remote_store `{JsRuntime}
    (env : Environment) (msg : AnalyzeMsg) (w : World) :
  ~ In (Fetch Remote.saveAnalysisUrl) (newEvents (handleAnalyze env msg) w)
  /\ ~ In (Fetch Remote.resolveFrameChangesUrl) (newEvents (handleAnalyze env msg) w)
  /\ Forall notToRemoteStore (newEvents (handleAnalyze env msg) w).
Proof.
  destruct (handleAnalyze_emits env msg w) as (new & Htr & Hnew).
  rewrite (newEvents_of _ w new Htr).
  rewrite Forall_forall in Hnew.
  split; [|split].
  - intros Hin. apply list_elem_of_In in Hin.
    specialize (Hnew _ Hin _ eq_refl). vm_compute in Hnew. discriminate.
  - intros Hin. apply list_elem_of_In in Hin.
    specialize (Hnew _ Hin _ eq_refl). vm_compute in Hnew. discriminate.
  - apply Forall_forall. exact Hnew.
Qed.

Example fresh_analysis_sample :
  let w' := (@handleAnalyze sampleRuntime quietEnvironment (plainRequest true) cachedWorld).2 in
  trace w'
  = [ClearOverlays; PostMessage (MsgAnalysisProgress 0 2); AnalyzeFrame (js "1:1");
     PostMessage (MsgAnalysisComplete [] 0 false None);
     Notify (NotifyAnalysisComplete 0)]
  /\ analysisCache w' !! js "1:1"
     = Some {| timestamp := 5000; version := js "1.0.0";
               contentHash := js "jpiaoq"; results := [] |}
  /\ pluginData w' !! js "1:1"
     = Some (Serialized {| timestamp := 5000; version := js "1.0.0";
                           contentHash := js "jpiaoq"; results := [] |}).
Proof. vm_compute. repeat split; reflexivity. Qed.

(** ** The rolling hash: shape and collisions *)

Lemma toInt32_range z : -2147483648 <= toInt32 z < 2147483648.
Proof.
  unfold toInt32.
  pose proof (Z.mod_pos_bound (z + 2147483648) 4294967296 ltac:(lia)). lia.
Qed.

Lemma toInt32_wraps z : exists q, toInt32 z = z + 4294967296 * q.
Proof.
  unfold toInt32. exists (- ((z + 2147483648) / 4294967296)).
  pose proof (Z.div_mod (z + 2147483648) 4294967296 ltac:(lia)). lia.
Qed.

Lemma hashStep_range h c : -2147483648 <= hashStep h c < 2147483648.
Proof. unfold hashStep. rewrite Z.land_diag. apply toInt32_range. Qed.

(** One step is [31 * hash + char], wrapped to 32 bits. *)
Lemma hashStep_wraps h c : exists q, hashStep h c = 31 * h + c + 4294967296 * q.
Proof.
  unfold hashStep. rewrite Z.land_diag, Z.shiftl_mul_pow2 by lia.
  destruct (toInt32_wraps h) as [q1 H1].
  destruct (toInt32_wraps (toInt32 h * 2 ^ 5)) as [q2 H2].
  destruct (toInt32_wraps (toInt32 (toInt32 h * 2 ^ 5) - h + c)) as [q3 H3].
  exists (32 * q1 + q2 + q3). rewrite H3, H2, H1.
  change (2 ^ 5) with 32. lia.
Qed.

Lemma fold_hashStep_range s h :
  -2147483648 <= h < 2147483648 ->
  -2147483648 <= fold_left hashStep s h < 2147483648.
Proof.
  revert h. induction s as [|c s IH]; intros h Hh; simpl; [exact Hh|].
  apply IH, hashStep_range.
Qed.

Lemma hashOf_range str : -2147483648 <= hashOf str < 2147483648.
Proof. apply fold_hashStep_range. lia. Qed.

Lemma digitChar_base36 d : 0 <= d < 36 -> base36Char (digitChar d).
Proof.
  intros Hd. unfold base36Char, digitChar. destruct (Z.ltb_spec d 10); lia.
Qed.

Lemma digitsRev_base36 fuel n :
  0 <= n -> Forall base36Char (digitsRev fuel 36 n).
Proof.
  revert n. induction fuel as [|fuel IH]; intros n Hn; simpl; [constructor|].
  destruct (Z.ltb_spec n 36).
  - constructor; [apply digitChar_base36; lia | constructor].
  - constructor.
    + apply digitChar_base36. apply Z.mod_pos_bound. lia.
    + apply IH. apply Z.div_pos; lia.
Qed.

Lemma digitsRev_length fuel radix n (k : nat) :
  2 <= radix -> 0 <= n < radix ^ Z.of_nat (S k) ->
  (length (digitsRev fuel radix n) <= S k)%nat.
Proof.
  intros Hradix. revert n k. induction fuel as [|fuel IH]; intros n k Hn; simpl; [lia|].
  destruct (Z.ltb_spec n radix); simpl; [lia|].
  destruct k as [|k].
  - change (Z.of_nat 1) with 1 in Hn. rewrite Z.pow_1_r in Hn. lia.
  - apply le_n_S. apply IH. split; [apply Z.div_pos; lia|].
    apply Z.div_lt_upper_bound; [lia|].
    rewrite (Nat2Z.inj_succ (S k)), Z.pow_succ_r in Hn by lia. lia.
Qed.

(** X1. [simpleHash] returns between one and six characters, each a
    digit or a lower-case letter: the base-36 numeral of the absolute
    value of a 32-bit integer, with no sign. *)
Theorem simpleHash_shape (str : jsstring) :
  (1 <= length (simpleHash str) <= 6)%nat /\ Forall base36Char (simpleHash str).
Proof.
  unfold simpleHash. fold (hashOf str). pose proof (hashOf_range str) as Hr.
  unfold integer_toString. rewrite length_rev. split; [split|].
  - simpl. destruct (Z.abs (hashOf str) <? 36); simpl; lia.
  - apply (digitsRev_length _ 36 _ 5); [lia|].
    change (36 ^ Z.of_nat 6) with 2176782336. lia.
  - apply Forall_rev. apply digitsRev_base36. lia.
Qed.

Lemma fold_hashStep_linear s :
  forall h h', exists q,
    fold_left hashStep s h - fold_left hashStep s h'
    = 31 ^ Z.of_nat (length s) * (h - h') + 4294967296 * q.
Proof.
  induction s as [|c s IH]; intros h h'.
  - exists 0. simpl. lia.
  - destruct (hashStep_wraps h c) as [q1 H1].
    destruct (hashStep_wraps h' c) as [q2 H2].
    destruct (IH (hashStep h c) (hashStep h' c)) as [q3 H3].
    exists (31 ^ Z.of_nat (length s) * (q1 - q2) + q3).
    cbn [fold_left length]. rewrite H3, H1, H2, Nat2Z.inj_succ, Z.pow_succ_r by lia.
    ring.
Qed.

Lemma fold_hashStep_collision s s' h :
  length s = length s' ->
  hashOf s = hashOf s' ->
  fold_left hashStep s h = fold_left hashStep s' h.
Proof.
  intros Hlen Hhash. unfold hashOf in Hhash.
  destruct s as [|c s], s' as [|c' s']; try discriminate; [reflexivity|].
  destruct (fold_hashStep_linear (c :: s) h 0) as [q1 H1].
  destruct (fold_hashStep_linear (c' :: s') h 0) as [q2 H2].
  rewrite <- Hlen in H2.
  pose proof (fold_hashStep_range s (hashStep h c) (hashStep_range h c)) as R1.
  pose proof (fold_hashStep_range s' (hashStep h c') (hashStep_range h c')) as R2.
  change (fold_left hashStep s (hashStep h c)) with (fold_left hashStep (c :: s) h) in R1.
  change (fold_left hashStep s' (hashStep h c')) with (fold_left hashStep (c' :: s') h) in R2.
  lia.
Qed.

(** X2. The hash depends on a run of characters only through the
    length of the run and the hash of the run alone: replacing a run by
    another of the same length and the same hash, anywhere in a string,
    leaves the hash of the string as it was. *)
Theorem simpleHash_collision_in_context (s s' before after : jsstring) :
  length s = length s' ->
  hashOf s = hashOf s' ->
  simpleHash (before ++ s ++ after) = simpleHash (before ++ s' ++ after).
Proof.
  intros Hlen Hhash. unfold simpleHash.
  rewrite !fold_left_app.
  rewrite (fold_hashStep_collision s s' _ Hlen Hhash). reflexivity.
Qed.

Lemma simpleHash_collision_in_context_witness :
  simpleHash (js "x" ++ js "Aa" ++ js "y") = simpleHash (js "x" ++ js "BB" ++ js "y").
Proof.
  apply (simpleHash_collision_in_context (js "Aa") (js "BB") (js "x") (js "y")).
  - reflexivity.
  - reflexivity.
Defined.

(** ** The age shown for an entry *)

(** X3. [getCacheAge] by the age in milliseconds: "just now" under one
    minute (and for a timestamp ahead of the clock), whole minutes under
    one hour, whole hours under one day, whole days from then on. *)
Theorem getCacheAge_thresholds (now timestamp : Z) :
  getCacheAge now timestamp =
    let age := now - timestamp in
    if age <? 60000 then js "just now"
    else if age <? 3600000 then integer_toString 10 (age / 60000) ++ js "m ago"
    else if age <? 86400000 then integer_toString 10 (age / 3600000) ++ js "h ago"
    else integer_toString 10 (age / 86400000) ++ js "d ago".
Proof.
  unfold getCacheAge. cbv zeta.
  rewrite !Z.div_div by lia. change (60000 * 60) with 3600000.
  change (3600000 * 24) with 86400000.
  repeat match goal with
         | |- context [?a <? ?b] => destruct (Z.ltb_spec a b)
         end; try reflexivity; exfalso; Z.div_mod_to_equations; lia.
Qed.

Lemma getCacheAge_days now timestamp :
  86400000 <= now - timestamp ->
  getCacheAge now timestamp
  = integer_toString 10 ((now - timestamp) / 86400000) ++ js "d ago".
Proof.
  intros Hday. unfold getCacheAge. cbv zeta.
  rewrite !Z.div_div by lia. change (60000 * (60 * 24)) with 86400000.
  destruct (Z.ltb_spec 0 ((now - timestamp) / 86400000)); [reflexivity|].
  exfalso. Z.div_mod_to_equations. lia.
Qed.

(** X4. An entry that [isCacheValid] accepts and that is a day old or
    more is shown with an age of 1 to 7 days. *)
Theorem valid_entry_age_at_most_seven_days `{JsRuntime}
    (now : Z) (frame : SceneNode) (cached : CachedAnalysis) :
  isCacheValid now frame cached = true ->
  86400000 <= now - timestamp cached ->
  exists days,
    1 <= days <= 7
    /\ getCacheAge now (timestamp cached) = integer_toString 10 days ++ js "d ago".
Proof.
  intros Hvalid Hday. unfold isCacheValid in Hvalid.
  destruct (isExpired now (timestamp cached)) eqn:Hexp; [discriminate|].
  apply isExpired_false in Hexp. unfold CACHE_DURATION in Hexp.
  exists ((now - timestamp cached) / 86400000). split.
  - Z.div_mod_to_equations. lia.
  - apply getCacheAge_days. exact Hday.
Qed.

Lemma valid_entry_age_at_most_seven_days_witness :
  exists days,
    1 <= days <= 7
    /\ getCacheAge (1000 + 604800000) (timestamp entryAa)
       = integer_toString 10 days ++ js "d ago".
Proof.
  apply (@valid_entry_age_at_most_seven_days sampleRuntime (1000 + 604800000)
           frameAa entryAa).
  - vm_compute. reflexivity.
  - vm_compute. discriminate.
Defined.

(** ** Counting the elements of a frame *)

(** X5. [countElements] is the number of nodes of the subtree: the
    node itself and all its descendants. *)
Theorem countElements_counts_preorder (node : SceneNode) :
  countElements node = length (preorder node)
  /\ countElements node = S (descendantCount node).
Proof.
  induction node as [node IH] using SceneNode_children_ind.
  destruct node as [i nm ty ch fl kids]. simpl in IH.
  assert (Hsum : forall start,
             fold_left (fun count child => (count + countElements child)%nat) kids start
             = (start + length (flat_map preorder kids))%nat
             /\ fold_left (fun count child => (count + countElements child)%nat) kids start
                = (start + fold_right (fun child acc => (S (descendantCount child) + acc)%nat)
                             0%nat kids)%nat).
  { induction IH as [|k kids [Hk1 Hk2] _ IHkids]; intros start;
      cbn [fold_left fold_right flat_map length]; [lia|].
    destruct (IHkids (start + countElements k)%nat) as [H1 H2].
    rewrite length_app. split; [rewrite H1, Hk1 | rewrite H2, Hk2]; lia. }
  destruct (Hsum 1%nat) as [H1 H2].
  change (countElements (mkNode i nm ty ch fl kids))
    with (fold_left (fun count child => (count + countElements child)%nat) kids 1%nat).
  split; [rewrite H1 | rewrite H2]; reflexivity.
Qed.

(** ** Font weight from the style name (in [checkTextContrast]) *)

Lemma includes_true s sub :
  includes s sub = true <->
  exists i, (i <= length s)%nat /\ take (length sub) (drop i s) = sub.
Proof.
  unfold includes, startsWith. rewrite existsb_exists. split.
  - intros (i & Hi & Hstart). apply in_seq in Hi.
    apply bool_decide_eq_true in Hstart. exists i. split; [lia | exact Hstart].
  - intros (i & Hi & Hstart). exists i. split; [apply in_seq; lia|].
    apply bool_decide_eq_true. exact Hstart.
Qed.

(** A string that includes [a ++ b] includes [b]. *)
Lemma includes_suffix s a b :
  includes s (a ++ b) = true -> includes s b = true.
Proof.
  rewrite !includes_true. intros (i & Hi & Htake).
  assert (Hsplit : drop i s = a ++ b ++ drop (length (a ++ b)) (drop i s)).
  { rewrite <- (take_drop (length (a ++ b)) (drop i s)) at 1.
    rewrite Htake, <- app_assoc. reflexivity. }
  exists (i + length a)%nat. split.
  - apply (f_equal length) in Hsplit.
    rewrite length_drop, !length_app in Hsplit. lia.
  - rewrite <- drop_drop, Hsplit, drop_app_length. apply take_app_length.
Qed.

(** X6. The weight read off a style name is never 600: a style that
    includes "semibold" includes "bold", which is tested first, so its
    weight is 700 (900 when the style also includes "black" or
    "heavy"). *)
Theorem fontWeightFromStyle_never_600 (style : jsstring) :
  fontWeightFromStyle style <> 600
  /\ (includes style (js "semibold") = true ->
      fontWeightFromStyle style = 900 \/ fontWeightFromStyle style = 700).
Proof.
  assert (Hbold : includes style (js "semibold") = true ->
                  includes style (js "bold") = true).
  { apply (includes_suffix style (js "semi") (js "bold")). }
  unfold fontWeightFromStyle.
  destruct (includes style (js "black") || includes style (js "heavy")).
  - split; [discriminate | auto].
  - destruct (includes style (js "bold")) eqn:Eb.
    + split; [discriminate | auto].
    + destruct (includes style (js "semibold")) eqn:Es.
      * specialize (Hbold eq_refl). discriminate.
      * split; [|discriminate].
        repeat match goal with
               | |- context [if ?c then _ else _] => destruct c
               end; discriminate.
Qed.

Example fontWeightFromStyle_sample :
  fontWeightFromStyle (js "semibold") = 700
  /\ fontWeightFromStyle (js "extralight italic") = 300
  /\ fontWeightFromStyle (js "regular") = 400
  /\ resolveFontWeight (Some 600) (js "semibold") = 600.
Proof. repeat split; vm_compute; reflexivity. Qed.

(** ** AI suggestions *)

Lemma applySuggestions_lookup aiSuggestions issues k :
  applySuggestions aiSuggestions issues !! k
  = (fun x => match elementAt aiSuggestions k with
              | Some v =>
                  if truthy v then
                    {| elementId := elementId x; elementName := elementName x;
                       issueType := issueType x; severity := severity x;
                       wcagLevel := wcagLevel x; currentValue := currentValue x;
                       requiredValue := requiredValue x; suggestion := v;
                       suggestedFix := suggestedFix x; bounds := bounds x |}
                  else x
              | None => x
              end) <$> issues !! k.
Proof. unfold applySuggestions. apply list_lookup_imap. Qed.

Lemma applySuggestions_null issues : applySuggestions JsonNull issues = issues.
Proof.
  apply list_eq. intros k. rewrite applySuggestions_lookup. simpl.
  destruct (issues !! k); reflexivity.
Qed.

Arguments applySuggestions : simpl never.

(** The outcome of the AI step: it returns normally, sends one request
    and one notification, and leaves everything but the suggestions as
    it was. *)
Lemma enhanceWithAI_run env w :
  exists w' n,
    enhanceWithAI env w = (Ok tt, w')
    /\ trace w' = trace w ++ [Fetch DEEPSEEK_URL; Notify n]
    /\ currentIssues w' = match aiReply env with
                          | Some reply => applySuggestions reply (currentIssues w)
                          | None => currentIssues w
                          end
    /\ analysisCache w' = analysisCache w
    /\ pluginData w' = pluginData w
    /\ selectedFrame w' = selectedFrame w
    /\ clock w <= clock w'.
Proof.
  unfold enhanceWithAI. run.
  destruct (aiReply env) as [reply|]; run.
  - destruct reply; run.
    1: destruct (currentIssues w) as [|a l] eqn:Hw; run.
    all: eexists _, _; (split; [reflexivity|]); simpl; rewrite <- ?app_assoc; simpl;
      (split; [reflexivity|]); (split; [|repeat split; lia]).
    all: rewrite ?Hw; first [reflexivity | symmetry; apply applySuggestions_null].
  - eexists _, _. split; [reflexivity|]. simpl. rewrite <- ?app_assoc. simpl.
    split; [reflexivity|]. split; [reflexivity|]. repeat split; lia.
Qed.

(** X7. [enhanceWithAI] returns normally whatever the reply is.  It
    keeps the number and the order of the issues and changes no field
    of an issue other than [suggestion].  A suggestion is replaced by
    what the reply holds at the same index when that is truthy, of
    whatever type: a number, an object or a single character of a
    string as well as a string.  Both tiers of the cache are left
    alone. *)
Theorem enhanceWithAI_changes_suggestions_only (env : Environment) (w : World) :
  exists w',
    enhanceWithAI env w = (Ok tt, w')
    /\ length (currentIssues w') = length (currentIssues w)
    /\ (forall k y, currentIssues w' !! k = Some y ->
          exists x,
            currentIssues w !! k = Some x
            /\ sameButSuggestion x y
            /\ suggestion y
               = match aiReply env with
                 | Some reply =>
                     match elementAt reply k with
                     | Some v => if truthy v then v else suggestion x
                     | None => suggestion x
                     end
                 | None => suggestion x
                 end)
    /\ analysisCache w' = analysisCache w
    /\ pluginData w' = pluginData w.
Proof.
  destruct (enhanceWithAI_run env w) as (w' & n & Hrun & _ & Hissues & Ht1 & Ht2 & _).
  exists w'. split; [exact Hrun|]. rewrite Hissues.
  destruct (aiReply env) as [reply|].
  - split; [unfold applySuggestions; apply length_imap|].
    split; [|auto]. intros k y Hy. rewrite applySuggestions_lookup in Hy.
    destruct (currentIssues w !! k) as [x|]; [|discriminate].
    exists x. split; [reflexivity|]. simpl in Hy. injection Hy as <-.
    destruct (elementAt reply k) as [v|]; [destruct (truthy v)|];
      unfold sameButSuggestion; simpl; auto 12.
  - split; [reflexivity|]. split; [|auto]. intros k y Hy. exists y.
    unfold sameButSuggestion. auto 12.
Qed.

(** A reply that is an array of numbers: the suggestion of the first
    issue is the number 1 afterwards. *)
Example enhanceWithAI_sample :
  let env := {| driverFound := []; driverThrows := None; driverElapsed := 0;
                aiReply := Some (JsonArray [JsonNumber 1]); aiElapsed := 0;
                overlayThrows := None; overlayElapsed := 0; storageFull := false |} in
  map suggestion
    (currentIssues (enhanceWithAI env (with_currentIssues figmaIssues cachedWorld)).2)
  = [JsonNumber 1;
     JsonString (js "Increase letter spacing to 1.9px");
     JsonString (js "Increase letter spacing to 1.9px")].
Proof. vm_compute. reflexivity. Qed.

(** ** Remote history client: resolving changes *)

Lemma has_changes_resolved frameId table :
  has_changes frameId (Remote.resolve_frame_changes frameId table) = false.
Proof.
  unfold Remote.resolve_frame_changes, has_changes.
  induction table as [|[fid prev cur resolved] table IH]; simpl; [reflexivity|].
  rewrite IH, orb_false_r.
  destruct (bool_decide (fid = frameId)) eqn:E, resolved; simpl; rewrite ?E; reflexivity.
Qed.

(** X8. [resolve_frame_changes] leaves no unresolved change for the
    frame, so that [has_changes] of [get_latest_analysis] is false for
    it afterwards.  It deletes no row, changes no other column, and does
    not change [has_changes] of any other frame. *)
Theorem resolve_frame_changes_clears_one_frame
    (frameId : jsstring) (table : Remote.frame_changes) :
  has_changes frameId (Remote.resolve_frame_changes frameId table) = false
  /\ length (Remote.resolve_frame_changes frameId table) = length table
  /\ (forall other, other <> frameId ->
        has_changes other (Remote.resolve_frame_changes frameId table)
        = has_changes other table)
  /\ map (fun fc => (Remote.frame_id fc, Remote.previous_hash fc, Remote.current_hash fc))
       (Remote.resolve_frame_changes frameId table)
     = map (fun fc => (Remote.frame_id fc, Remote.previous_hash fc, Remote.current_hash fc))
         table.
Proof.
  split; [apply has_changes_resolved|].
  unfold Remote.resolve_frame_changes, has_changes.
  split; [|split].
  - apply length_map.
  - intros other Hother.
    induction table as [|[fid prev cur resolved] table IH]; simpl; [reflexivity|].
    rewrite IH. f_equal.
    destruct (bool_decide (fid = frameId)) eqn:E, resolved; simpl; try reflexivity.
    apply bool_decide_eq_true in E. subst fid.
    rewrite bool_decide_eq_false_2 by congruence. reflexivity.
  - rewrite map_map. apply map_ext. intros [fid prev cur resolved]. simpl.
    destruct (bool_decide (fid = frameId) && negb resolved); reflexivity.
Qed.

(** X9. Detection followed by resolution, when the requests reach the
    store: for two different hashes [detectFrameChange] answers [true]
    and the frame has changes; [resolveFrameChanges] then clears them
    and keeps the row; a detection with the current hash on both sides
    then answers [false] and records nothing. *)
Theorem detect_then_resolve (frameId previousHash currentHash : jsstring)
    (table : Remote.frame_changes) :
  previousHash <> currentHash ->
  exists flagged resolved,
    Remote.detectFrameChange Remote.Delivered frameId previousHash currentHash table
    = (Ok true, flagged)
    /\ has_changes frameId flagged = true
    /\ Remote.resolveFrameChanges Remote.Delivered frameId flagged = (Ok tt, resolved)
    /\ has_changes frameId resolved = false
    /\ length resolved = S (length table)
    /\ Remote.detectFrameChange Remote.Delivered frameId currentHash currentHash resolved
       = (Ok false, resolved).
Proof.
  intros Hne. unfold Remote.detectFrameChange, Remote.resolveFrameChanges, Remote.request.
  rewrite detect_frame_change_differ by exact Hne.
  eexists _, _. split; [reflexivity|]. split.
  - unfold has_changes. rewrite existsb_app. simpl.
    rewrite bool_decide_eq_true_2 by reflexivity. simpl. apply orb_true_r.
  - split; [reflexivity|]. split; [apply has_changes_resolved|]. split.
    + unfold Remote.resolve_frame_changes. rewrite length_map, length_app. simpl. lia.
    + rewrite detect_frame_change_equal. reflexivity.
Qed.

Lemma detect_then_resolve_witness :
  exists flagged resolved,
    Remote.detectFrameChange Remote.Delivered (js "1:1") (js "1mo") (js "22ci") []
    = (Ok true, flagged)
    /\ has_changes (js "1:1") flagged = true
    /\ Remote.resolveFrameChanges Remote.Delivered (js "1:1") flagged = (Ok tt, resolved)
    /\ has_changes (js "1:1") resolved = false
    /\ length resolved = S (length (@nil Remote.ChangeRow))
    /\ Remote.detectFrameChange Remote.Delivered (js "1:1") (js "22ci") (js "22ci") resolved
       = (Ok false, resolved).
Proof.
  apply (detect_then_resolve (js "1:1") (js "1mo") (js "22ci") []).
  discriminate.
Defined.

(** ** Local cache store: the three ways of a lookup *)

(** The validity check, from its three conditions. *)
Lemma isCacheValid_true `{JsRuntime} now frame cached :
  now - timestamp cached <= CACHE_DURATION ->
  version cached = PLUGIN_VERSION ->
  contentHash cached = generateContentHash frame ->
  isCacheValid now frame cached = true.
Proof.
  intros Hage Hversion Hhash. unfold isCacheValid.
  apply isExpired_false in Hage. rewrite Hage.
  rewrite !bool_decide_eq_true_2 by congruence. reflexivity.
Qed.

Lemma isCacheValid_expired `{JsRuntime} now frame cached :
  CACHE_DURATION < now - timestamp cached ->
  isCacheValid now frame cached = false.
Proof.
  intros Hage. unfold isCacheValid, isExpired.
  destruct (Z.ltb_spec CACHE_DURATION (now - timestamp cached)); [reflexivity | lia].
Qed.

(** The lookup on an entry in memory: returned when valid, evicted from
    both tiers when not. *)
Lemma getCachedAnalysis_tier1 `{JsRuntime} frame w cached :
  analysisCache w !! node_id frame = Some cached ->
  getCachedAnalysis frame w
  = if isCacheValid (clock w) frame cached then (Ok (Some cached), w)
    else (Ok None, with_pluginData (delete (node_id frame))
                     (with_analysisCache (delete (node_id frame)) w)).
Proof.
  intros Htier1. unfold getCachedAnalysis, clearFrameCache. run. rewrite Htier1. run.
  destruct (isCacheValid (clock w) frame cached); reflexivity.
Qed.

(** The lookup on an entry that is in the plugin data only. *)
Lemma getCachedAnalysis_tier2 `{JsRuntime} frame w cached :
  analysisCache w !! node_id frame = None ->
  pluginData w !! node_id frame = Some (Serialized cached) ->
  getCachedAnalysis frame w
  = if isCacheValid (clock w) frame cached
    then (Ok (Some cached), with_analysisCache (<[node_id frame := cached]>) w)
    else (Ok None, with_pluginData (delete (node_id frame))
                     (with_analysisCache (delete (node_id frame))
                        (with_analysisCache (<[node_id frame := cached]>) w))).
Proof.
  intros Htier1 Htier2. unfold getCachedAnalysis, clearFrameCache. run.
  rewrite Htier1. run. rewrite Htier2. run.
  destruct (isCacheValid (clock w) frame cached); reflexivity.
Qed.

(** The lookup when neither tier holds anything for the frame. *)
Lemma getCachedAnalysis_absent `{JsRuntime} frame w :
  analysisCache w !! node_id frame = None ->
  pluginData w !! node_id frame = None ->
  getCachedAnalysis frame w = (Ok None, w).
Proof.
  intros Htier1 Htier2. unfold getCachedAnalysis. run.
  rewrite Htier1. run. rewrite Htier2. reflexivity.
Qed.

(** The world in which a fresh analysis starts, when the driver ran. *)

(** ** Local cache store: what is stored is found again *)

Lemma setCachedAnalysis_run `{JsRuntime} full frame results w :
  setCachedAnalysis full frame results w
  = (Ok tt,
     if full then
       with_analysisCache (<[node_id frame := newEntry (clock w) frame results]>) w
     else
       with_pluginData (<[node_id frame := Serialized (newEntry (clock w) frame results)]>)
         (with_analysisCache (<[node_id frame := newEntry (clock w) frame results]>) w)).
Proof. unfold setCachedAnalysis, newEntry. run. destruct full; reflexivity. Qed.

(** X10. What [setCachedAnalysis] stores is found again.  A lookup for
    the same frame up to seven days later returns the stored entry, also
    when the write to the plugin data failed; a lookup more than seven
    days later returns nothing and leaves neither tier with an entry for
    the frame. *)
Theorem setCachedAnalysis_then_lookup `{JsRuntime} (full : bool) (frame : SceneNode)
    (results : list AccessibilityIssue) (w : World) (t : Z) :
  let w1 := (setCachedAnalysis full frame results w).2 in
  (t - clock w <= CACHE_DURATION ->
     getCachedAnalysis frame (with_clock t w1)
     = (Ok (Some (newEntry (clock w) frame results)), with_clock t w1))
  /\ (CACHE_DURATION < t - clock w ->
        exists w2,
          getCachedAnalysis frame (with_clock t w1) = (Ok None, w2)
          /\ analysisCache w2 !! node_id frame = None
          /\ pluginData w2 !! node_id frame = None).
Proof.
  rewrite setCachedAnalysis_run. cbv zeta.
  assert (Htier1 : analysisCache
                     (with_clock t
                        (Ok tt,
                         if full then
                           with_analysisCache
                             (<[node_id frame := newEntry (clock w) frame results]>) w
                         else
                           with_pluginData
                             (<[node_id frame :=
                                  Serialized (newEntry (clock w) frame results)]>)
                             (with_analysisCache
                                (<[node_id frame := newEntry (clock w) frame results]>) w)).2)
                   !! node_id frame
                   = Some (newEntry (clock w) frame results)).
  { destruct full; simpl; apply lookup_insert_eq. }
  rewrite (getCachedAnalysis_tier1 _ _ _ Htier1). split.
  - intros Hage. rewrite isCacheValid_true; [reflexivity | | reflexivity | reflexivity].
    destruct full; exact Hage.
  - intros Hage. rewrite isCacheValid_expired by (destruct full; exact Hage).
    eexists. split; [reflexivity|]. simpl. split; apply lookup_delete_eq.
Qed.

Lemma setCachedAnalysis_then_lookup_witness :
  let w1 := (@setCachedAnalysis sampleRuntime true frameAa [] corruptWorld).2 in
  @getCachedAnalysis sampleRuntime frameAa (with_clock 6000 w1)
  = (Ok (Some (@newEntry sampleRuntime 5000 frameAa [])), with_clock 6000 w1).
Proof.
  apply (proj1 (@setCachedAnalysis_then_lookup sampleRuntime true frameAa []
                  corruptWorld 6000)).
  vm_compute. discriminate.
Defined.

Example setCachedAnalysis_then_lookup_sample :
  let w1 := (@setCachedAnalysis sampleRuntime true frameAa [] corruptWorld).2 in
  (@getCachedAnalysis sampleRuntime frameAa (with_clock (5000 + 604800000) w1)).1
  = Ok (Some (@newEntry sampleRuntime 5000 frameAa []))
  /\ (@getCachedAnalysis sampleRuntime frameAa (with_clock (5001 + 604800000) w1)).1
     = Ok None.
Proof. split; vm_compute; reflexivity. Qed.

(** X11. After a restart of the plugin (the map in memory is empty) an
    entry whose write to the plugin data went through is found again
    within seven days and put back in memory; an entry whose write
    failed is lost, and the lookup goes as if nothing had been stored. *)
Theorem stored_entry_after_restart `{JsRuntime} (full : bool) (frame : SceneNode)
    (results : list AccessibilityIssue) (w : World) (t : Z) :
  let w1 := (setCachedAnalysis full frame results w).2 in
  (full = false -> t - clock w <= CACHE_DURATION ->
     exists w2,
       getCachedAnalysis frame (restart (with_clock t w1))
       = (Ok (Some (newEntry (clock w) frame results)), w2)
       /\ analysisCache w2 !! node_id frame = Some (newEntry (clock w) frame results))
  /\ (full = true ->
        getCachedAnalysis frame (restart (with_clock t w1))
        = getCachedAnalysis frame (restart (with_clock t w))).
Proof.
  rewrite setCachedAnalysis_run. cbv zeta. split.
  - intros -> Hage.
    rewrite (getCachedAnalysis_tier2 _ _ (newEntry (clock w) frame results)).
    + rewrite isCacheValid_true; [| exact Hage | reflexivity | reflexivity].
      eexists. split; [reflexivity|]. simpl. apply lookup_insert_eq.
    + reflexivity.
    + simpl. apply lookup_insert_eq.
  - intros ->. reflexivity.
Qed.

Lemma stored_entry_after_restart_witness :
  exists w2,
    @getCachedAnalysis sampleRuntime frameAa
      (restart (with_clock 6000
                  (@setCachedAnalysis sampleRuntime false frameAa [] corruptWorld).2))
    = (Ok (Some (@newEntry sampleRuntime 5000 frameAa [])), w2)
    /\ analysisCache w2 !! node_id frameAa
       = Some (@newEntry sampleRuntime 5000 frameAa []).
Proof.
  apply (proj1 (@stored_entry_after_restart sampleRuntime false frameAa []
                  corruptWorld 6000)).
  - reflexivity.
  - vm_compute. discriminate.
Defined.

Example stored_entry_after_restart_sample :
  (@getCachedAnalysis sampleRuntime frameAa
     (restart (with_clock 6000 (@setCachedAnalysis sampleRuntime false frameAa [] corruptWorld).2))).1
  = Ok (Some (@newEntry sampleRuntime 5000 frameAa []))
  /\ (@getCachedAnalysis sampleRuntime frameAa
        (restart (with_clock 6000 (@setCachedAnalysis sampleRuntime true frameAa [] corruptWorld).2))).1
     = Ok None.
Proof. split; vm_compute; reflexivity. Qed.

(** ** Cache coordinator: the stretches of a fresh analysis *)

(** The outcome of the [catch] block leaves cache, selection and issues
    as the [try] block left them. *)
Lemma catchFailure_keeps outcome :
  exists w',
    catchFailure outcome = (Ok tt, w')
    /\ analysisCache w' = analysisCache outcome.2
    /\ pluginData w' = pluginData outcome.2
    /\ selectedFrame w' = selectedFrame outcome.2
    /\ currentIssues w' = currentIssues outcome.2
    /\ trace w' = trace outcome.2
                    ++ match outcome.1 with
                       | Ok _ => []
                       | Throw e => [PostMessage (MsgError (js "Analysis failed: " ++ e));
                                    Notify NotifyAnalysisFailed]
                       end.
Proof.
  destruct outcome as [[[]|e] w1]; simpl; eexists; (split; [reflexivity|]); simpl.
  - rewrite app_nil_r. auto.
  - rewrite <- app_assoc. auto 10.
Qed.

Lemma tryCatch_reportFailure (body : M unit) w :
  tryCatch body reportFailure w = catchFailure (body w).
Proof.
  unfold catchFailure. run. destruct (body w) as [[[]|e] w1]; reflexivity.
Qed.

(** The first stretch, when the driver returns. *)
Lemma startFreshAnalysis_returns env frame w :
  driverThrows env = None ->
  exists w1,
    startFreshAnalysis env frame w = (Ok tt, w1)
    /\ trace w1 = trace w ++ [ClearOverlays;
                              PostMessage (MsgAnalysisProgress 0 (countElements frame));
                              AnalyzeFrame (node_id frame)]
    /\ currentIssues w1 = driverFound env
    /\ analysisCache w1 = analysisCache w
    /\ pluginData w1 = pluginData w
    /\ selectedFrame w1 = selectedFrame w
    /\ clock w <= clock w1.
Proof.
  intros Hdriver. unfold startFreshAnalysis, analyzeFrame. run. rewrite Hdriver.
  eexists. split; [reflexivity|]. simpl. rewrite <- !app_assoc. simpl.
  repeat split. lia.
Qed.

Lemma sameButSuggestion_refl x : sameButSuggestion x x.
Proof. unfold sameButSuggestion. auto 12. Qed.

Lemma applySuggestions_same reply issues :
  Forall2 sameButSuggestion issues (applySuggestions reply issues).
Proof.
  apply Forall2_same_length_lookup. split.
  - unfold applySuggestions. symmetry. apply length_imap.
  - intros k x y Hx Hy. rewrite applySuggestions_lookup, Hx in Hy.
    simpl in Hy. injection Hy as <-.
    destruct (elementAt reply k) as [v|]; [destruct (truthy v)|];
      unfold sameButSuggestion; simpl; auto 12.
Qed.

(** The second stretch: the issues are the same up to their
    suggestions, and nothing else changes but the clock. *)
Lemma enhanceIfAsked_run env msg w :
  exists w' ai,
    enhanceIfAsked env msg w = (Ok tt, w')
    /\ trace w' = trace w ++ ai
    /\ Forall aiStep ai
    /\ Forall2 sameButSuggestion (currentIssues w) (currentIssues w')
    /\ analysisCache w' = analysisCache w
    /\ pluginData w' = pluginData w
    /\ selectedFrame w' = selectedFrame w
    /\ clock w <= clock w'.
Proof.
  unfold enhanceIfAsked, when.
  destruct (useAI msg && bool_decide (apiKey msg <> [])).
  - destruct (enhanceWithAI_run env w)
      as (w' & n & Hrun & Htr & Hissues & Ht1 & Ht2 & Hsel & Hclock).
    exists w', [Fetch DEEPSEEK_URL; Notify n]. split; [exact Hrun|].
    split; [exact Htr|]. split.
    { constructor; [left; reflexivity|].
      constructor; [right; exists n; reflexivity|]. constructor. }
    split; [|auto]. rewrite Hissues.
    destruct (aiReply env); [apply applySuggestions_same|].
    apply Forall2_same_length_lookup. split; [reflexivity|].
    intros k x y Hx Hy. assert (x = y) as -> by congruence.
    apply sameButSuggestion_refl.
  - exists w, []. split; [reflexivity|]. rewrite app_nil_r.
    split; [reflexivity|]. split; [constructor|]. split.
    + apply Forall2_same_length_lookup. split; [reflexivity|].
      intros k x y Hx Hy. assert (x = y) as -> by congruence.
      apply sameButSuggestion_refl.
    + repeat split. lia.
Qed.

(** The third stretch with a frame selected: the issues are stored
    under that frame, then the result is posted, then the overlay is
    drawn if asked for. *)
Lemma storeAndReport_run `{JsRuntime} env msg frame w :
  selectedFrame w = Some frame ->
  exists r w' groups rest,
    storeAndReport env msg w = (r, w')
    /\ groupIssuesByElement (currentIssues w) = Some groups
    /\ analysisCache w'
       = <[node_id frame := newEntry (clock w) frame (currentIssues w)]> (analysisCache w)
    /\ pluginData w'
       = (if storageFull env then pluginData w
          else <[node_id frame := Serialized (newEntry (clock w) frame (currentIssues w))]>
                 (pluginData w))
    /\ trace w' = trace w ++
         PostMessage (MsgAnalysisComplete groups (length (currentIssues w)) false None)
         :: rest
    /\ selectedFrame w' = Some frame
    /\ currentIssues w' = currentIssues w
    /\ (r = Ok tt /\ Forall localEvent rest
           /\ (overlayThrows env = None \/ showOverlay msg = false
               \/ currentIssues w = [])
        \/ exists error,
             r = Throw error /\ overlayThrows env = Some error
             /\ showOverlay msg = true /\ currentIssues w <> []
             /\ rest = [CreateOverlayFrame (node_id frame)]).
Proof.
  intros Hsel.
  destruct (groupIssuesByElement_total (currentIssues w)) as [groups Hgroups].
  unfold storeAndReport, grouping, createOverlayFrame. run. rewrite Hsel. run.
  rewrite setCachedAnalysis_run. destruct (storageFull env); run.
  all: rewrite Hgroups; run.
  all: destruct (bool_decide (0 < length (currentIssues w))%nat) eqn:Hsome;
    destruct (showOverlay msg) eqn:Hshow; run.
  all: try (destruct (overlayThrows env) eqn:Hoverlay; run).
  all: eexists _, _, groups, _.
  all: split; [reflexivity|]; split; [reflexivity|]; simpl.
  all: split; [reflexivity|]; split; [reflexivity|].
  all: rewrite <- ?app_assoc; simpl.
  all: split; [reflexivity|]; split; [exact Hsel|]; split; [reflexivity|].
  all: apply bool_decide_eq_true in Hsome || apply bool_decide_eq_false in Hsome.
  all: first [ left; split; [reflexivity|]; split; [repeat constructor|];
               first [ left; reflexivity | right; left; reflexivity
                     | right; right;
                       destruct (currentIssues w); [reflexivity|];
                       simpl in Hsome; lia ]
             | right; eexists; split; [reflexivity|]; split; [reflexivity|];
               split; [reflexivity|]; split; [|reflexivity];
               intros Hnil; rewrite Hnil in Hsome; simpl in Hsome; lia ].
Qed.

(** The third stretch with nothing selected: [setCachedAnalysis] throws
    before it stores anything. *)
Lemma storeAndReport_no_selection `{JsRuntime} env msg w :
  selectedFrame w = None ->
  storeAndReport env msg w = (Throw (TypeError_of_null (js "children")), w).
Proof. intros Hsel. unfold storeAndReport. run. rewrite Hsel. reflexivity. Qed.

(** The fresh analysis, stretch by stretch. *)
Lemma runFreshAnalysis_steps `{JsRuntime} env msg frame w w1 w2 :
  startFreshAnalysis env frame w = (Ok tt, w1) ->
  enhanceIfAsked env msg w1 = (Ok tt, w2) ->
  runFreshAnalysis env msg frame w = storeAndReport env msg w2.
Proof.
  intros Hstart Henhance. unfold runFreshAnalysis. run.
  rewrite Hstart, Henhance. reflexivity.
Qed.

(** X13. When the awaits of a fresh analysis are over with a frame
    selected and issues found, and the drawing of the overlay then
    fails, the interface is sent the result first and the error
    "Analysis failed: ..." after it, for the same request; the issues
    have been stored under the frame that is selected at that moment
    all the same. *)
Theorem overlay_failure_follows_the_result `{JsRuntime}
    (env : Environment) (msg : AnalyzeMsg) (frame : SceneNode)
    (error : jsstring) (w : World) :
  selectedFrame w = Some frame ->
  currentIssues w <> [] ->
  showOverlay msg = true ->
  overlayThrows env = Some error ->
  exists w' groups,
    tryCatch (storeAndReport env msg) reportFailure w = (Ok tt, w')
    /\ groupIssuesByElement (currentIssues w) = Some groups
    /\ newEvents (tryCatch (storeAndReport env msg) reportFailure) w
       = [PostMessage (MsgAnalysisComplete groups (length (currentIssues w)) false None);
          CreateOverlayFrame (node_id frame);
          PostMessage (MsgError (js "Analysis failed: " ++ error));
          Notify NotifyAnalysisFailed]
    /\ analysisCache w' !! node_id frame
       = Some (newEntry (clock w) frame (currentIssues w)).
Proof.
  intros Hsel Hsome Hshow Hoverlay.
  destruct (storeAndReport_run env msg frame w Hsel)
    as (r & w1 & groups & rest & Hrun & Hgroups & Ht1 & _ & Htr & _ & _ & Hend).
  destruct Hend as [(_ & _ & [Hnone|[Hoff|Hnil]])|(e & -> & He & _ & _ & ->)];
    [congruence | congruence | contradiction |].
  assert (e = error) by congruence. subst e.
  destruct (catchFailure_keeps (storeAndReport env msg w))
    as (w' & Hcatch & Hc1 & _ & _ & _ & Hctr).
  rewrite Hrun in Hc1, Hctr. cbn [fst snd] in Hc1, Hctr.
  exists w', groups.
  assert (Hrun' : tryCatch (storeAndReport env msg) reportFailure w = (Ok tt, w')).
  { rewrite tryCatch_reportFailure. exact Hcatch. }
  split; [exact Hrun'|]. split; [exact Hgroups|]. split.
  - apply newEvents_of. rewrite Hrun'. simpl. rewrite Hctr, Htr, <- app_assoc.
    reflexivity.
  - rewrite Hc1, Ht1. apply lookup_insert_eq.
Qed.

Lemma overlay_failure_follows_the_result_witness :
  exists w' groups,
    tryCatch (@storeAndReport sampleRuntime overlayEnvironment (overlayRequest true))
      reportFailure (with_currentIssues figmaIssues cachedWorld)
    = (Ok tt, w')
    /\ groupIssuesByElement figmaIssues = Some groups
    /\ analysisCache w' !! node_id frameAa
       = Some (@newEntry sampleRuntime 5000 frameAa figmaIssues).
Proof.
  destruct (@overlay_failure_follows_the_result sampleRuntime overlayEnvironment
              (overlayRequest true) frameAa (js "no font")
              (with_currentIssues figmaIssues cachedWorld))
    as (w' & groups & Hrun & Hgroups & _ & Htier1).
  - reflexivity.
  - discriminate.
  - reflexivity.
  - reflexivity.
  - exists w', groups. auto.
Defined.

(** The lookup leaves the slots of every other node alone. *)
Lemma getCachedAnalysis_other_slots `{JsRuntime} frame w k :
  k <> node_id frame ->
  analysisCache (getCachedAnalysis frame w).2 !! k = analysisCache w !! k
  /\ pluginData (getCachedAnalysis frame w).2 !! k = pluginData w !! k.
Proof.
  intros Hk. unfold getCachedAnalysis, clearFrameCache. run.
  destruct (analysisCache w !! node_id frame) as [c|]; run.
  - destruct (isCacheValid (clock w) frame c); run;
      rewrite ?lookup_delete_ne by congruence; auto.
  - destruct (pluginData w !! node_id frame) as [[text| |c]|]; run; auto.
    destruct (isCacheValid (clock w) frame c); run;
      rewrite ?lookup_delete_ne, ?lookup_insert_ne by congruence; auto.
Qed.

(** X16. Each piece of code that writes to the cache writes to the two
    slots of one frame only, the frame it is handed: the lookup (which
    may put an entry in memory, or evict one), the store, the clearing,
    and the last stretch of a fresh analysis, which stores under the
    frame that is selected when it runs.  The slots of every other node
    are as they were. *)
Theorem cache_writes_touch_one_frame `{JsRuntime}
    (env : Environment) (msg : AnalyzeMsg) (frame : SceneNode) (full : bool)
    (results : list AccessibilityIssue) (w : World) (k : jsstring) :
  k <> node_id frame ->
  let unchanged (w' : World) :=
    analysisCache w' !! k = analysisCache w !! k
    /\ pluginData w' !! k = pluginData w !! k in
  unchanged (getCachedAnalysis frame w).2
  /\ unchanged (setCachedAnalysis full frame results w).2
  /\ unchanged (clearFrameCache frame w).2
  /\ (selectedFrame w = Some frame ->
        unchanged (tryCatch (storeAndReport env msg) reportFailure w).2).
Proof.
  intros Hk unchanged. subst unchanged. cbv beta.
  split; [apply getCachedAnalysis_other_slots; exact Hk|]. split; [|split].
  - rewrite setCachedAnalysis_run. destruct full; simpl;
      rewrite ?lookup_insert_ne by congruence; auto.
  - unfold clearFrameCache. run. rewrite !lookup_delete_ne by congruence. auto.
  - intros Hsel.
    destruct (storeAndReport_run env msg frame w Hsel)
      as (r & w1 & groups & rest & Hrun & _ & Ht1 & Ht2 & _).
    destruct (catchFailure_keeps (storeAndReport env msg w))
      as (w' & Hcatch & Hc1 & Hc2 & _).
    rewrite Hrun in Hc1, Hc2. cbn [fst snd] in Hc1, Hc2.
    rewrite tryCatch_reportFailure, Hcatch. simpl. rewrite Hc1, Hc2, Ht1, Ht2.
    rewrite lookup_insert_ne by congruence.
    destruct (storageFull env); rewrite ?lookup_insert_ne by congruence; auto.
Qed.

Lemma cache_writes_touch_one_frame_witness :
  analysisCache (@setCachedAnalysis sampleRuntime false frameFlat [] cachedWorld).2
    !! js "1:1"
  = analysisCache cachedWorld !! js "1:1".
Proof.
  apply (@cache_writes_touch_one_frame sampleRuntime quietEnvironment
           (plainRequest true) frameFlat false [] cachedWorld (js "1:1")).
  discriminate.
Defined.

(** ** Cache coordinator: every request *)

Lemma handleAnalyze_no_selection `{JsRuntime} env msg w :
  selectedFrame w = None ->
  handleAnalyze env msg w
  = (Ok tt, with_event (PostMessage (MsgError (js "Please select a frame first")))
              (resetProgress w)).
Proof.
  intros Hsel. unfold handleAnalyze, resetProgress. run. rewrite Hsel. reflexivity.
Qed.

(** A fresh analysis, with the [catch] block around it: the handler
    returns, and the first thing it did was to start the driver. *)
Lemma fresh_run_outcome `{JsRuntime} env msg frame w0 :
  exists w' rest,
    catchFailure (runFreshAnalysis env msg frame w0) = (Ok tt, w')
    /\ trace w' = trace w0 ++ [ClearOverlays;
                               PostMessage (MsgAnalysisProgress 0 (countElements frame));
                               AnalyzeFrame (node_id frame)] ++ rest
    /\ selectedFrame w' = selectedFrame w0.
Proof.
  destruct (driverThrows env) as [error|] eqn:Hdriver.
  - destruct (failed_run_outcome env msg frame error w0 Hdriver)
      as (w' & Hrun & Htr & _ & _ & Hsel).
    exists w', [PostMessage (MsgError (js "Analysis failed: " ++ error));
                Notify NotifyAnalysisFailed].
    auto.
  - destruct (startFreshAnalysis_returns env frame w0 Hdriver)
      as (w1 & Hstart & Htr1 & _ & _ & _ & Hsel1 & _).
    destruct (enhanceIfAsked_run env msg w1)
      as (w2 & ai & Henhance & Htr2 & _ & _ & _ & _ & Hsel2 & _).
    rewrite (runFreshAnalysis_steps env msg frame w0 w1 w2 Hstart Henhance).
    destruct (catchFailure_keeps (storeAndReport env msg w2))
      as (w' & Hcatch & _ & _ & Hcsel & _ & Hctr).
    destruct (selectedFrame w2) as [selected|] eqn:Hsel.
    + destruct (storeAndReport_run env msg selected w2 Hsel)
        as (r & w3 & groups & rest & Hrun & _ & _ & _ & Htr3 & Hsel3 & _).
      rewrite Hrun in Hcsel, Hctr. cbn [fst snd] in Hcsel, Hctr.
      eexists w', _. split; [exact Hcatch|]. split.
      * rewrite Hctr, Htr3, Htr2, Htr1, <- !app_assoc. simpl.
        rewrite <- ?app_assoc. reflexivity.
      * congruence.
    + rewrite (storeAndReport_no_selection env msg w2 Hsel) in Hcsel, Hctr, Hcatch |- *.
      cbn [fst snd] in Hcsel, Hctr.
      eexists w', _. split; [exact Hcatch|]. split.
      * rewrite Hctr, Htr2, Htr1, <- !app_assoc. simpl. reflexivity.
      * congruence.
Qed.

Lemma handleAnalyze_cases `{JsRuntime} env msg frame w :
  selectedFrame w = Some frame ->
  (exists cached w1 groups rest w',
      forceReanalyze msg = false
      /\ getCachedAnalysis frame w = (Ok (Some cached), w1)
      /\ handleAnalyze env msg w = (Ok tt, w')
      /\ trace w' = trace w ++
           PostMessage (MsgAnalysisComplete groups (length (results cached)) true
                          (Some (getCacheAge (clock w) (timestamp cached)))) :: rest
      /\ Forall localEvent rest
      /\ analysisCache w' = analysisCache w1
      /\ pluginData w' = pluginData w1)
  \/ (exists w0,
        (forceReanalyze msg = true /\ w0 = w
         \/ forceReanalyze msg = false /\ getCachedAnalysis frame w = (Ok None, w0))
        /\ trace w0 = trace w
        /\ handleAnalyze env msg w
           = catchFailure (runFreshAnalysis env msg frame (resetProgress w0))).
Proof.
  intros Hsel. destruct (forceReanalyze msg) eqn:Hforce.
  - right. exists w. split; [auto|]. split; [reflexivity|].
    apply handleAnalyze_forced; assumption.
  - destruct (getCachedAnalysis_returns frame w) as (r & w1 & Hlookup & _ & Htrace & _).
    destruct r as [cached|].
    + left.
      destruct (handleAnalyze_hit env msg frame cached w w1 Hsel Hforce Hlookup)
        as (groups & rest & w' & Hrun & _ & Htr & Hlocal & Ht1 & Ht2).
      exists cached, w1, groups, rest, w'. auto 10.
    + right. exists w1. split; [auto|]. split; [exact Htrace|].
      apply handleAnalyze_miss; assumption.
Qed.

(** X14. With a frame selected, the handler runs the driver exactly
    when the request is forced or the lookup finds no valid entry. *)
Theorem driver_runs_iff_forced_or_no_valid_entry `{JsRuntime}
    (env : Environment) (msg : AnalyzeMsg) (frame : SceneNode) (w : World) :
  selectedFrame w = Some frame ->
  (In (AnalyzeFrame (node_id frame)) (newEvents (handleAnalyze env msg) w)
   <-> forceReanalyze msg = true \/ (getCachedAnalysis frame w).1 = Ok None).
Proof.
  intros Hsel.
  destruct (handleAnalyze_cases env msg frame w Hsel)
    as [(cached & w1 & groups & rest & w' & Hforce & Hlookup & Hrun & Htr & Hlocal & _)
       |(w0 & Hway & Htr0 & Hrun)].
  - rewrite (newEvents_of _ w _ ltac:(rewrite Hrun; exact Htr)). split.
    + intros [Hin|Hin]; [discriminate|]. exfalso.
      rewrite Forall_forall in Hlocal. apply list_elem_of_In in Hin.
      exact (Hlocal _ Hin).
    + intros [Hf|Hnone]; [congruence|]. rewrite Hlookup in Hnone. discriminate.
  - split.
    + intros _. destruct Hway as [(Hf & _)|(_ & Hlookup)]; [left; exact Hf|].
      right. rewrite Hlookup. reflexivity.
    + intros _.
      destruct (fresh_run_outcome env msg frame (resetProgress w0))
        as (w' & rest & Hcatch & Htr & _).
      rewrite (newEvents_of _ w
                 ([ClearOverlays;
                   PostMessage (MsgAnalysisProgress 0 (countElements frame));
                   AnalyzeFrame (node_id frame)] ++ rest)).
      * simpl. auto.
      * rewrite Hrun, Hcatch. simpl. rewrite Htr. unfold resetProgress. simpl.
        rewrite Htr0. reflexivity.
Qed.

Lemma driver_runs_iff_forced_or_no_valid_entry_witness :
  In (AnalyzeFrame (node_id frameAa))
     (newEvents (@handleAnalyze sampleRuntime quietEnvironment (plainRequest true))
        cachedWorld).
Proof.
  apply (proj2 (@driver_runs_iff_forced_or_no_valid_entry sampleRuntime
                  quietEnvironment (plainRequest true) frameAa cachedWorld
                  eq_refl)).
  left. reflexivity.
Defined.

(** X15. An entry that is no longer valid does not survive a failed
    analysis: on a request that is not forced the lookup evicts it from
    both tiers before the driver runs, and when the driver throws
    nothing is stored in its place. *)
Theorem stale_entry_lost_when_analysis_fails `{JsRuntime}
    (env : Environment) (msg : AnalyzeMsg) (frame : SceneNode)
    (cached : CachedAnalysis) (error : jsstring) (w : World) :
  selectedFrame w = Some frame ->
  forceReanalyze msg = false ->
  analysisCache w !! node_id frame = Some cached
  \/ analysisCache w !! node_id frame = None
     /\ pluginData w !! node_id frame = Some (Serialized cached) ->
  isCacheValid (clock w) frame cached = false ->
  driverThrows env = Some error ->
  exists w',
    handleAnalyze env msg w = (Ok tt, w')
    /\ newEvents (handleAnalyze env msg) w
       = [ClearOverlays;
          PostMessage (MsgAnalysisProgress 0 (countElements frame));
          AnalyzeFrame (node_id frame);
          PostMessage (MsgError (js "Analysis failed: " ++ error));
          Notify NotifyAnalysisFailed]
    /\ analysisCache w' !! node_id frame = None
    /\ pluginData w' !! node_id frame = None.
Proof.
  intros Hsel Hforce Hentry Hstale Hdriver.
  assert (Hmiss : exists w1,
             getCachedAnalysis frame w = (Ok None, w1)
             /\ trace w1 = trace w
             /\ analysisCache w1 !! node_id frame = None
             /\ pluginData w1 !! node_id frame = None).
  { destruct Hentry as [Htier1|[Htier1 Htier2]].
    - rewrite (getCachedAnalysis_tier1 frame w cached Htier1), Hstale.
      eexists. split; [reflexivity|]. simpl. rewrite !lookup_delete_eq. auto.
    - rewrite (getCachedAnalysis_tier2 frame w cached Htier1 Htier2), Hstale.
      eexists. split; [reflexivity|]. simpl. rewrite !lookup_delete_eq. auto. }
  destruct Hmiss as (w1 & Hlookup & Htr1 & Hnone1 & Hnone2).
  destruct (failed_run_outcome env msg frame error (resetProgress w1) Hdriver)
    as (w' & Hcatch & Htr & Ht1 & Ht2 & _).
  assert (Hrun : handleAnalyze env msg w = (Ok tt, w')).
  { rewrite (handleAnalyze_miss env msg frame w w1 Hsel Hforce Hlookup). exact Hcatch. }
  exists w'. split; [exact Hrun|]. split.
  - apply newEvents_of. rewrite Hrun. simpl. rewrite Htr. unfold resetProgress.
    simpl. rewrite Htr1. reflexivity.
  - rewrite Ht1, Ht2. unfold resetProgress. simpl. auto.
Qed.

Lemma stale_entry_lost_when_analysis_fails_witness :
  exists w',
    @handleAnalyze sampleRuntime failingEnvironment (plainRequest false) staleWorld
    = (Ok tt, w')
    /\ analysisCache w' !! node_id frameAa = None
    /\ pluginData w' !! node_id frameAa = None.
Proof.
  destruct (@stale_entry_lost_when_analysis_fails sampleRuntime failingEnvironment
              (plainRequest false) frameAa entryAa (js "TypeError") staleWorld)
    as (w' & Hrun & _ & Hnone1 & Hnone2).
  - reflexivity.
  - reflexivity.
  - left. reflexivity.
  - reflexivity.
  - reflexivity.
  - exists w'. auto.
Defined.

(** ** Fingerprint generator: what it does not read *)

Lemma restyle_children rename paint n :
  children (restyle rename paint n) = map (restyle rename paint) (children n).
Proof. destruct n; reflexivity. Qed.

Lemma flat_map_restyle {A} (f : SceneNode -> list A) rename paint kids :
  Forall (fun k => f (restyle rename paint k) = f k) kids ->
  flat_map f (map (restyle rename paint) kids) = flat_map f kids.
Proof.
  induction 1 as [|k kids Hk _ IH]; simpl; [reflexivity|]. rewrite Hk, IH. reflexivity.
Qed.

Lemma collectTextContent_restyle rename paint n :
  collectTextContent (restyle rename paint n) = collectTextContent n.
Proof.
  induction n as [n IH] using SceneNode_children_ind.
  rewrite (collectTextContent_unfold (restyle rename paint n)),
    (collectTextContent_unfold n), restyle_children, flat_map_restyle by exact IH.
  destruct n; reflexivity.
Qed.

Lemma collectColors_restyle `{JsRuntime} rename paint n :
  collectColors (restyle rename paint n) = collectColors n.
Proof.
  induction n as [n IH] using SceneNode_children_ind.
  rewrite (collectColors_unfold (restyle rename paint n)),
    (collectColors_unfold n), restyle_children, flat_map_restyle by exact IH.
  f_equal. destruct n as [i nm ty ch fl kids]. unfold ownColors, solidFillStrings.
  simpl. destruct (isTEXT _); reflexivity.
Qed.

(** X18. The fingerprint reads neither the names of the nodes nor the
    fills of nodes that are not text: after any change of these the
    fingerprint is the same and [isCacheValid] decides as before, so an
    entry computed before a background was repainted is still served. *)
Theorem generateContentHash_ignores_names_and_other_fills `{JsRuntime}
    (rename : SceneNode -> jsstring) (paint : SceneNode -> FillsProp)
    (frame : SceneNode) (now : Z) (cached : CachedAnalysis) :
  generateContentHash (restyle rename paint frame) = generateContentHash frame
  /\ isCacheValid now (restyle rename paint frame) cached
     = isCacheValid now frame cached.
Proof.
  assert (Hhash : generateContentHash (restyle rename paint frame)
                  = generateContentHash frame).
  { unfold generateContentHash, fingerprintJSON.
    rewrite collectTextContent_restyle, collectColors_restyle, restyle_children,
      length_map. reflexivity. }
  split; [exact Hhash|]. unfold isCacheValid. rewrite Hhash. reflexivity.
Qed.

(** X19. The colour that [getTextColor] returns for a text node of the
    frame is one of the colours that go into the fingerprint. *)
Theorem getTextColor_in_fingerprint `{JsRuntime}
    (frame node : SceneNode) (c : RGB) :
  In node (preorder frame) ->
  isTEXT node = true ->
  getTextColor node = Some c ->
  In (colorString c) (collectColors frame).
Proof.
  intros Hnode Htext Hcolor. rewrite collectColors_preorder.
  apply in_flat_map. exists node. split.
  - apply list_elem_of_In. unfold textLeaves. apply list_elem_of_filter.
    split; [exact Htext | apply list_elem_of_In; exact Hnode].
  - unfold getTextColor, firstFillIfSolid in Hcolor. unfold solidFillStrings.
    destruct (fills node) as [| |[|[c'| | | | | |] paints]]; try discriminate.
    injection Hcolor as ->. simpl. left. reflexivity.
Qed.

Lemma getTextColor_in_fingerprint_witness :
  In (@colorString sampleRuntime black) (@collectColors sampleRuntime frameAa).
Proof.
  apply (@getTextColor_in_fingerprint sampleRuntime frameAa (textNode "1:2" "Aa") black).
  - simpl. right. left. reflexivity.
  - reflexivity.
  - reflexivity.
Defined.

(** ** Selection, clearing and cache information *)

Lemma clearSlots_lookup frames : forall data id,
  fold_left clearSlot frames data !! id
  = if decide (id ∈ map node_id frames) then None else data !! id.
Proof.
  induction frames as [|f frames IH]; intros data id; cbn [fold_left map].
  - rewrite decide_False by apply not_elem_of_nil. reflexivity.
  - rewrite IH. unfold clearSlot.
    destruct (decide (id ∈ map node_id frames)) as [Hin|Hout].
    + rewrite decide_True by (apply elem_of_cons; auto). reflexivity.
    + destruct (decide (id = node_id f)) as [->|Hne].
      * rewrite decide_True by (apply elem_of_cons; auto).
        destruct (data !! node_id f) eqn:Hslot; [apply lookup_delete_eq | exact Hslot].
      * rewrite decide_False by (rewrite elem_of_cons; tauto).
        destruct (data !! node_id f); [apply lookup_delete_ne; congruence | reflexivity].
Qed.

(** X20. [clearAllCaches] empties the map in memory and the plugin
    data of every frame that [findAll] finds on the current page, so
    that a lookup for any of them finds nothing; the plugin data of
    every other node is as it was. *)
Theorem clearAllCaches_clears_frames_of_the_page `{JsRuntime}
    (page : list SceneNode) (w : World) :
  exists w',
    clearAllCaches page w = (Ok [NotifyAllCachesCleared], w')
    /\ analysisCache w' = ∅
    /\ (forall frame, In frame (findAllFrames page) ->
          pluginData w' !! node_id frame = None
          /\ getCachedAnalysis frame w' = (Ok None, w'))
    /\ (forall id, ~ In id (map node_id (findAllFrames page)) ->
          pluginData w' !! id = pluginData w !! id).
Proof.
  unfold clearAllCaches. run. eexists. split; [reflexivity|]. simpl.
  split; [reflexivity|]. split.
  - intros frame Hin.
    assert (Hnone : fold_left clearSlot (findAllFrames page) (pluginData w)
                    !! node_id frame = None).
    { rewrite clearSlots_lookup, decide_True; [reflexivity|].
      apply list_elem_of_In, in_map, Hin. }
    split; [exact Hnone|]. apply getCachedAnalysis_absent; [apply lookup_empty|exact Hnone].
  - intros id Hout. rewrite clearSlots_lookup, decide_False; [reflexivity|].
    intros Hin. apply Hout, list_elem_of_In, Hin.
Qed.

(** X21. "All caches cleared" does not reach what [findAll] misses: a
    valid entry in the plugin data of a frame that is not on the current
    page is found again by the next lookup, and put back in memory. *)
Theorem clearAllCaches_keeps_what_findAll_misses `{JsRuntime}
    (page : list SceneNode) (node : SceneNode) (cached : CachedAnalysis) (w : World) :
  ~ In (node_id node) (map node_id (findAllFrames page)) ->
  pluginData w !! node_id node = Some (Serialized cached) ->
  isCacheValid (clock w) node cached = true ->
  exists w' w2,
    clearAllCaches page w = (Ok [NotifyAllCachesCleared], w')
    /\ getCachedAnalysis node w' = (Ok (Some cached), w2)
    /\ analysisCache w2 !! node_id node = Some cached.
Proof.
  intros Hout Hslot Hvalid. unfold clearAllCaches. run.
  eexists _, _. split; [reflexivity|].
  rewrite (getCachedAnalysis_tier2 node _ cached).
  - simpl. rewrite Hvalid. split; [reflexivity|]. simpl. apply lookup_insert_eq.
  - apply lookup_empty.
  - simpl. rewrite clearSlots_lookup, decide_False; [exact Hslot|].
    intros Hin. apply Hout, list_elem_of_In, Hin.
Qed.

Lemma clearAllCaches_keeps_what_findAll_misses_witness :
  exists w' w2,
    clearAllCaches [frameFlat] cachedWorld = (Ok [NotifyAllCachesCleared], w')
    /\ @getCachedAnalysis sampleRuntime frameAa w' = (Ok (Some entryAa), w2)
    /\ analysisCache w2 !! node_id frameAa = Some entryAa.
Proof.
  apply (@clearAllCaches_keeps_what_findAll_misses sampleRuntime
           [frameFlat] frameAa entryAa cachedWorld).
  - vm_compute. intros [Hsame|[]]. discriminate.
  - reflexivity.
  - reflexivity.
Defined.



(** The lookup does not read the selection. *)
Lemma getCachedAnalysis_after_selection `{JsRuntime} frame selected w :
  getCachedAnalysis frame (with_selectedFrame selected w)
  = let '(r, w1) := getCachedAnalysis frame w in (r, with_selectedFrame selected w1).
Proof.
  unfold getCachedAnalysis, clearFrameCache. run.
  destruct (analysisCache w !! node_id frame) as [c|]; run.
  - destruct (isCacheValid (clock w) frame c); reflexivity.
  - destruct (pluginData w !! node_id frame) as [[text| |c]|]; run; try reflexivity.
    destruct (isCacheValid (clock w) frame c); reflexivity.
Qed.

(** A second lookup at the same time finds what the first found, and
    changes nothing. *)
Lemma getCachedAnalysis_twice `{JsRuntime} frame w r w1 :
  getCachedAnalysis frame w = (r, w1) ->
  getCachedAnalysis frame w1 = (r, w1).
Proof.
  destruct (analysisCache w !! node_id frame) as [c|] eqn:Htier1.
  - rewrite (getCachedAnalysis_tier1 frame w c Htier1).
    destruct (isCacheValid (clock w) frame c) eqn:Hvalid; intros [= <- <-].
    + rewrite (getCachedAnalysis_tier1 frame w c Htier1), Hvalid. reflexivity.
    + apply getCachedAnalysis_absent; simpl; apply lookup_delete_eq.
  - destruct (pluginData w !! node_id frame) as [[text| |c]|] eqn:Htier2.
    + assert (Hsame : getCachedAnalysis frame w = (Ok None, w)).
      { unfold getCachedAnalysis. run. rewrite Htier1. run. rewrite Htier2. reflexivity. }
      rewrite Hsame. intros [= <- <-]. exact Hsame.
    + assert (Hsame : getCachedAnalysis frame w = (Ok None, w)).
      { unfold getCachedAnalysis. run. rewrite Htier1. run. rewrite Htier2. reflexivity. }
      rewrite Hsame. intros [= <- <-]. exact Hsame.
    + rewrite (getCachedAnalysis_tier2 frame w c Htier1 Htier2).
      destruct (isCacheValid (clock w) frame c) eqn:Hvalid; intros [= <- <-].
      * rewrite (getCachedAnalysis_tier1 frame _ c); [|simpl; apply lookup_insert_eq].
        simpl. rewrite Hvalid. reflexivity.
      * apply getCachedAnalysis_absent; simpl; apply lookup_delete_eq.
    + rewrite (getCachedAnalysis_absent frame w Htier1 Htier2).
      intros [= <- <-]. apply getCachedAnalysis_absent; assumption.
Qed.

(** X23. When a single frame is selected, the handler of the selection
    makes it the selected frame, and it announces a cached analysis
    exactly when a request that follows at the same time and is not
    forced is answered without a run of the driver. *)
Theorem cache_announced_iff_served `{JsRuntime}
    (env : Environment) (msg : AnalyzeMsg) (node : SceneNode) (w : World) :
  isFRAME node = true ->
  forceReanalyze msg = false ->
  exists sent w1,
    onSelectionChange [node] w = (Ok sent, w1)
    /\ selectedFrame w1 = Some node
    /\ ((exists age, sent = [MsgSelectionValid (node_name node); MsgCacheAvailable age])
        \/ sent = [MsgSelectionValid (node_name node)])
    /\ ((exists age, sent = [MsgSelectionValid (node_name node); MsgCacheAvailable age])
        <-> ~ In (AnalyzeFrame (node_id node)) (newEvents (handleAnalyze env msg) w1)).
Proof.
  intros Hframe Hforce. unfold onSelectionChange. rewrite Hframe. run.
  rewrite getCachedAnalysis_after_selection.
  destruct (getCachedAnalysis_returns node w) as (r & w0 & Hlookup & _ & _ & _).
  pose proof (getCachedAnalysis_twice node w _ _ Hlookup) as Hagain.
  rewrite Hlookup.
  assert (Hagain1 : getCachedAnalysis node (with_selectedFrame (Some node) w0)
                    = (Ok r, with_selectedFrame (Some node) w0)).
  { rewrite getCachedAnalysis_after_selection, Hagain. reflexivity. }
  assert (Hsel1 : selectedFrame (with_selectedFrame (Some node) w0) = Some node)
    by reflexivity.
  destruct (handleAnalyze_cases env msg node _ Hsel1)
    as [(cached & w2 & groups & rest & w' & _ & Hhit & Hrun & Htr & Hlocal & _)
       |(w2 & Hway & Htr2 & Hrun)].
  - rewrite Hagain1 in Hhit. injection Hhit as -> <-. run.
    eexists _, _. split; [reflexivity|]. split; [reflexivity|].
    split; [left; eauto|]. split; [|eauto].
    intros _ Hin.
    rewrite (newEvents_of _ _ _ ltac:(rewrite Hrun; exact Htr)) in Hin.
    destruct Hin as [Hin|Hin]; [discriminate|].
    rewrite Forall_forall in Hlocal. apply list_elem_of_In in Hin.
    exact (Hlocal _ Hin).
  - destruct Hway as [(Hf & _)|(_ & Hmiss)]; [congruence|].
    rewrite Hagain1 in Hmiss. injection Hmiss as -> <-. run.
    eexists _, _. split; [reflexivity|]. split; [reflexivity|].
    split; [right; reflexivity|]. split.
    + intros (age & Hage). discriminate.
    + intros Hnot. exfalso. apply Hnot.
      destruct (fresh_run_outcome env msg node
                  (resetProgress (with_selectedFrame (Some node) w0)))
        as (w' & rest & Hcatch & Htr & _).
      rewrite (newEvents_of _ _
                 ([ClearOverlays;
                   PostMessage (MsgAnalysisProgress 0 (countElements node));
                   AnalyzeFrame (node_id node)] ++ rest)).
      * simpl. auto.
      * rewrite Hrun, Hcatch. simpl. rewrite Htr. reflexivity.
Qed.

Lemma cache_announced_iff_served_witness :
  exists sent w1,
    @onSelectionChange sampleRuntime [frameAa] cachedWorld = (Ok sent, w1)
    /\ selectedFrame w1 = Some frameAa.
Proof.
  destruct (@cache_announced_iff_served sampleRuntime quietEnvironment
              (plainRequest false) frameAa cachedWorld eq_refl eq_refl)
    as (sent & w1 & Hrun & Hsel & _).
  exists sent, w1. auto.
Defined.

Example onSelectionChange_sample :
  (@onSelectionChange sampleRuntime [frameAa] cachedWorld).1
  = Ok [MsgSelectionValid (js "Card"); MsgCacheAvailable (js "just now")]
  /\ (@onSelectionChange sampleRuntime [textNode "1:2" "Aa"] cachedWorld).1
     = Ok [MsgSelectionError (js "Please select a frame (not a single element)")]
  /\ selectedFrame (@onSelectionChange sampleRuntime [textNode "1:2" "Aa"] cachedWorld).2
     = None.
Proof. vm_compute. repeat split; reflexivity. Qed.


(** ** A selection change during the analysis *)

Lemma getCachedAnalysis_keeps_issues `{JsRuntime} frame w :
  currentIssues (getCachedAnalysis frame w).2 = currentIssues w.
Proof.
  unfold getCachedAnalysis, clearFrameCache. run.
  destruct (analysisCache w !! node_id frame) as [c|]; run.
  - destruct (isCacheValid (clock w) frame c); reflexivity.
  - destruct (pluginData w !! node_id frame) as [[text| |c]|]; run; try reflexivity.
    destruct (isCacheValid (clock w) frame c); reflexivity.
Qed.

(** The handler of the selection, when a single frame is selected: it
    changes the selection and, by its lookup, the slots of that frame,
    and nothing else. *)
Lemma onSelectionChange_frame `{JsRuntime} node w :
  isFRAME node = true ->
  exists sent w',
    onSelectionChange [node] w = (Ok sent, w')
    /\ selectedFrame w' = Some node
    /\ trace w' = trace w
    /\ currentIssues w' = currentIssues w
    /\ clock w' = clock w
    /\ forall k, k <> node_id node ->
         analysisCache w' !! k = analysisCache w !! k
         /\ pluginData w' !! k = pluginData w !! k.
Proof.
  intros Hframe. unfold onSelectionChange. rewrite Hframe. run.
  rewrite getCachedAnalysis_after_selection.
  pose proof (getCachedAnalysis_keeps_issues node w) as Hissues.
  pose proof (getCachedAnalysis_other_slots node w) as Hslots.
  destruct (getCachedAnalysis_returns node w) as (r & w0 & Hlookup & Hclock & Htrace & _).
  rewrite Hlookup in Hissues, Hslots |- *. simpl in Hissues, Hslots.
  destruct r as [cached|]; run; eexists _, _; (split; [reflexivity|]); simpl; auto 10.
Qed.

(** When anything else is selected, or nothing, no frame is selected
    afterwards, and nothing else has changed. *)
Lemma onSelectionChange_none `{JsRuntime} selection w :
  (forall node, selection = [node] -> isFRAME node = false) ->
  exists sent, onSelectionChange selection w = (Ok sent, with_selectedFrame None w).
Proof.
  intros Hnone. unfold onSelectionChange.
  destruct selection as [|node [|second rest]]; run.
  - eexists. reflexivity.
  - rewrite (Hnone node eq_refl). run. eexists. reflexivity.
  - eexists. reflexivity.
Qed.

Arguments onSelectionChange : simpl never.

(** The run, stretch by stretch. *)
Lemma freshAnalysisAcrossSelection_steps `{JsRuntime} env msg frame selection
    w w1 sent w2 w3 :
  startFreshAnalysis env frame w = (Ok tt, w1) ->
  onSelectionChange selection w1 = (Ok sent, w2) ->
  enhanceIfAsked env msg w2 = (Ok tt, w3) ->
  freshAnalysisAcrossSelection env msg frame selection w
  = catchFailure (storeAndReport env msg w3).
Proof.
  intros Hstart Hselect Henhance. unfold freshAnalysisAcrossSelection.
  rewrite tryCatch_reportFailure. f_equal. run.
  rewrite Hstart, Hselect, Henhance. reflexivity.
Qed.

(** X12. When another frame is selected while the driver is awaited,
    the issues that the driver found in the frame it was started on are
    stored under the frame selected since, with the fingerprint of that
    frame; nothing is stored for the frame that was analysed.  The
    driver has not run on the newly selected frame, and yet every later
    request for it that is not forced, within seven days, is answered
    from this entry. *)
Theorem analysis_stored_under_the_new_selection `{JsRuntime}
    (env : Environment) (msg : AnalyzeMsg) (frame other : SceneNode) (w : World) :
  isFRAME other = true ->
  driverThrows env = None ->
  exists w' entry,
    freshAnalysisAcrossSelection env msg frame [other] w = (Ok tt, w')
    /\ In (AnalyzeFrame (node_id frame))
         (newEvents (freshAnalysisAcrossSelection env msg frame [other]) w)
    /\ Forall (fun e => forall id, e = AnalyzeFrame id -> id = node_id frame)
         (newEvents (freshAnalysisAcrossSelection env msg frame [other]) w)
    /\ selectedFrame w' = Some other
    /\ analysisCache w' !! node_id other = Some entry
    /\ version entry = PLUGIN_VERSION
    /\ contentHash entry = generateContentHash other
    /\ Forall2 sameButSuggestion (driverFound env) (results entry)
    /\ (node_id frame <> node_id other ->
          analysisCache w' !! node_id frame = analysisCache w !! node_id frame
          /\ pluginData w' !! node_id frame = pluginData w !! node_id frame)
    /\ forall env' msg' t,
         forceReanalyze msg' = false ->
         t - timestamp entry <= CACHE_DURATION ->
         exists groups rest w'',
           handleAnalyze env' msg' (with_clock t w') = (Ok tt, w'')
           /\ groupIssuesByElement (results entry) = Some groups
           /\ trace w'' = trace w' ++
                PostMessage (MsgAnalysisComplete groups (length (results entry))
                               true (Some (getCacheAge t (timestamp entry)))) :: rest
           /\ Forall localEvent rest.
Proof.
  intros Hframe Hdriver.
  destruct (startFreshAnalysis_returns env frame w Hdriver)
    as (w1 & Hstart & Htr1 & Hfound & Hs1 & Hs2 & _).
  destruct (onSelectionChange_frame other w1 Hframe)
    as (sent & w2 & Hselect & Hsel2 & Htr2 & Hissues2 & _ & Hslots2).
  destruct (enhanceIfAsked_run env msg w2)
    as (w3 & ai & Henhance & Htr3 & Hai & Hissues3 & Ht31 & Ht32 & Hsel3 & _).
  rewrite Hsel2 in Hsel3.
  destruct (storeAndReport_run env msg other w3 Hsel3)
    as (r & w4 & groups & rest & Hrun & _ & Ht41 & Ht42 & Htr4 & Hsel4 & _ & Hend).
  destruct (catchFailure_keeps (storeAndReport env msg w3))
    as (w' & Hcatch & Hc1 & Hc2 & Hcsel & _ & Hctr).
  rewrite Hrun in Hc1, Hc2, Hcsel, Hctr. cbn [fst snd] in Hc1, Hc2, Hcsel, Hctr.
  assert (Hwhole : freshAnalysisAcrossSelection env msg frame [other] w = (Ok tt, w')).
  { rewrite (freshAnalysisAcrossSelection_steps env msg frame [other] w w1 sent w2 w3
               Hstart Hselect Henhance). exact Hcatch. }
  set (entry := newEntry (clock w3) other (currentIssues w3)) in *.
  assert (Htier1 : analysisCache w' !! node_id other = Some entry).
  { rewrite Hc1, Ht41. apply lookup_insert_eq. }
  assert (Hevents : newEvents (freshAnalysisAcrossSelection env msg frame [other]) w
                    = [ClearOverlays;
                       PostMessage (MsgAnalysisProgress 0 (countElements frame));
                       AnalyzeFrame (node_id frame)]
                      ++ ai
                      ++ PostMessage (MsgAnalysisComplete groups
                                        (length (currentIssues w3)) false None)
                         :: rest
                      ++ match r with
                         | Ok _ => []
                         | Throw e => [PostMessage (MsgError (js "Analysis failed: " ++ e));
                                      Notify NotifyAnalysisFailed]
                         end).
  { apply newEvents_of. rewrite Hwhole. simpl.
    rewrite Hctr, Htr4, Htr3, Htr2, Htr1, <- !app_assoc. simpl.
    rewrite <- ?app_assoc. reflexivity. }
  exists w', entry. split; [exact Hwhole|]. rewrite Hevents.
  split; [simpl; auto|]. split.
  { constructor; [discriminate|]. constructor; [discriminate|].
    constructor; [intros id [= <-]; reflexivity|].
    apply Forall_app. split.
    - eapply Forall_impl; [exact Hai|]. intros e [->|(n & ->)]; discriminate.
    - constructor; [discriminate|]. apply Forall_app. split.
      + destruct Hend as [(_ & Hlocal & _)|(e & _ & _ & _ & _ & ->)].
        * eapply Forall_impl; [exact Hlocal|]. intros e He id ->. destruct He.
        * repeat constructor. discriminate.
      + destruct r; repeat constructor; discriminate. }
  split; [congruence|]. split; [exact Htier1|].
  split; [reflexivity|]. split; [reflexivity|]. split.
  { subst entry. simpl. rewrite <- Hfound, <- Hissues2. exact Hissues3. }
  split.
  { intros Hother.
    destruct (Hslots2 (node_id frame) Hother) as [Hk1 Hk2].
    rewrite Hc1, Hc2, Ht41, Ht42, lookup_insert_ne by congruence.
    rewrite Ht31, Hk1, Hs1. split; [reflexivity|].
    destruct (storageFull env); rewrite ?lookup_insert_ne by congruence;
      rewrite Ht32, Hk2, Hs2; reflexivity. }
  intros env' msg' t Hforce' Hage.
  assert (Hhit : getCachedAnalysis other (with_clock t w')
                 = (Ok (Some entry), with_clock t w')).
  { rewrite (getCachedAnalysis_tier1 other (with_clock t w') entry Htier1).
    simpl. rewrite isCacheValid_true; [reflexivity | exact Hage | |]; reflexivity. }
  destruct (handleAnalyze_hit env' msg' other entry (with_clock t w') (with_clock t w'))
    as (groups' & rest' & w'' & Hrun' & Hgroups' & Htr' & Hlocal' & _);
    [simpl; congruence | exact Hforce' | exact Hhit |].
  exists groups', rest', w''. auto.
Qed.

Lemma analysis_stored_under_the_new_selection_witness :
  exists w' entry,
    @freshAnalysisAcrossSelection sampleRuntime overlayEnvironment (plainRequest true)
      frameAa [frameFlat] cachedWorld
    = (Ok tt, w')
    /\ analysisCache w' !! node_id frameFlat = Some entry
    /\ contentHash entry = @generateContentHash sampleRuntime frameFlat
    /\ Forall2 sameButSuggestion (driverFound overlayEnvironment) (results entry).
Proof.
  destruct (@analysis_stored_under_the_new_selection sampleRuntime overlayEnvironment
              (plainRequest true) frameAa frameFlat cachedWorld)
    as (w' & entry & Hrun & _ & _ & _ & Htier1 & _ & Hhash & Hissues & _).
  - reflexivity.
  - reflexivity.
  - exists w', entry. auto.
Defined.

Example analysis_stored_under_the_new_selection_sample :
  let w' := (@freshAnalysisAcrossSelection sampleRuntime overlayEnvironment
               (plainRequest true) frameAa [frameFlat] cachedWorld).2 in
  analysisCache w' !! js "2:1"
  = Some {| timestamp := 5250; version := js "1.0.0";
            contentHash := @generateContentHash sampleRuntime frameFlat;
            results := [sampleIssue "Title" "1:2"] |}
  /\ analysisCache w' !! js "1:1" = Some entryAa.
Proof. vm_compute. split; reflexivity. Qed.

(** X17. When the selection is dropped while the driver is awaited
    (nothing is selected any more, or several nodes, or a node that is
    not a frame), the analysis that the driver completed is lost:
    [setCachedAnalysis] throws on the missing frame, nothing is stored
    in either tier, no result is posted, and the request ends with the
    error of the engine behind "Analysis failed: ". *)
Theorem analysis_lost_when_selection_is_dropped `{JsRuntime}
    (env : Environment) (msg : AnalyzeMsg) (frame : SceneNode)
    (selection : list SceneNode) (w : World) :
  (forall node, selection = [node] -> isFRAME node = false) ->
  driverThrows env = None ->
  exists w' ai,
    freshAnalysisAcrossSelection env msg frame selection w = (Ok tt, w')
    /\ newEvents (freshAnalysisAcrossSelection env msg frame selection) w
       = [ClearOverlays;
          PostMessage (MsgAnalysisProgress 0 (countElements frame));
          AnalyzeFrame (node_id frame)]
         ++ ai
         ++ [PostMessage (MsgError (js "Analysis failed: "
                                      ++ TypeError_of_null (js "children")));
             Notify NotifyAnalysisFailed]
    /\ Forall aiStep ai
    /\ analysisCache w' = analysisCache w
    /\ pluginData w' = pluginData w
    /\ Forall2 sameButSuggestion (driverFound env) (currentIssues w').
Proof.
  intros Hdropped Hdriver.
  destruct (startFreshAnalysis_returns env frame w Hdriver)
    as (w1 & Hstart & Htr1 & Hfound & Hs1 & Hs2 & _).
  destruct (onSelectionChange_none selection w1 Hdropped) as (sent & Hselect).
  destruct (enhanceIfAsked_run env msg (with_selectedFrame None w1))
    as (w3 & ai & Henhance & Htr3 & Hai & Hissues3 & Ht31 & Ht32 & Hsel3 & _).
  simpl in Htr3, Hissues3, Ht31, Ht32, Hsel3.
  destruct (catchFailure_keeps (storeAndReport env msg w3))
    as (w' & Hcatch & Hc1 & Hc2 & _ & Hcissues & Hctr).
  rewrite (storeAndReport_no_selection env msg w3 Hsel3) in Hc1, Hc2, Hcissues, Hctr.
  cbn [fst snd] in Hc1, Hc2, Hcissues, Hctr.
  assert (Hwhole : freshAnalysisAcrossSelection env msg frame selection w = (Ok tt, w')).
  { rewrite (freshAnalysisAcrossSelection_steps env msg frame selection w w1 sent _ w3
               Hstart Hselect Henhance). exact Hcatch. }
  exists w', ai. split; [exact Hwhole|]. split.
  { apply newEvents_of. rewrite Hwhole. simpl.
    rewrite Hctr, Htr3, Htr1, <- !app_assoc. reflexivity. }
  split; [exact Hai|]. split; [congruence|]. split; [congruence|].
  rewrite Hcissues, <- Hfound. exact Hissues3.
Qed.

Lemma analysis_lost_when_selection_is_dropped_witness :
  exists w',
    @freshAnalysisAcrossSelection sampleRuntime overlayEnvironment (plainRequest true)
      frameAa [] cachedWorld
    = (Ok tt, w')
    /\ analysisCache w' = analysisCache cachedWorld
    /\ pluginData w' = pluginData cachedWorld.
Proof.
  destruct (@analysis_lost_when_selection_is_dropped sampleRuntime overlayEnvironment
              (plainRequest true) frameAa [] cachedWorld)
    as (w' & ai & Hrun & _ & _ & Ht1 & Ht2 & _).
  - intros node Hnode. discriminate.
  - reflexivity.
  - exists w'. auto.
Defined.
